(** * Credential rotation pipeline: /changePassword and /forgotPassword

    A shallow embedding of the two Express routers
    [src/routes/auth/changePassword.ts] and the forgot-password router,
    together with the properties their specification states about them.

    JavaScript strings are sequences of UTF-16 code units; a field of
    [request.body] is either absent ([undefined]) or a string.  The
    connection pool is an explicit state holding the two tables the
    routers touch, a schedule of statement failures and the log of the
    statements issued so far. *)

From Stdlib Require Import List String Ascii Bool NArith ZArith Lia.
From Stdlib Require Import DecimalString.
Import ListNotations.

Local Open Scope bool_scope.

(** ** JavaScript strings *)

Module Js.

(** A string is the list of its UTF-16 code units; [length] counts them. *)
Definition jsstring := list N.

(** A property read from [request.body]: [None] is [undefined]. *)
Definition jsvalue := option jsstring.

(** ASCII literals of the source, as code units. *)
Definition lit (s : string) : jsstring :=
  List.map N_of_ascii (list_ascii_of_string s).

Definition code (a : ascii) : N := N_of_ascii a.

Definition jsstring_eqb (a b : jsstring) : bool :=
  if list_eq_dec N.eq_dec a b then true else false.

(** [a == b] on values that are [undefined] or strings. *)
Definition loose_eqb (a b : jsvalue) : bool :=
  match a, b with
  | None, None => true
  | Some x, Some y => jsstring_eqb x y
  | _, _ => false
  end.

(** [s.includes(c)] for a one-unit needle. *)
Definition includes (s : jsstring) (c : N) : bool :=
  existsb (N.eqb c) s.

(** Character classes of the regular expressions in the source. *)
Definition is_digit (c : N) : bool := (48 <=? c)%N && (c <=? 57)%N.
Definition is_lower (c : N) : bool := (97 <=? c)%N && (c <=? 122)%N.
Definition is_upper (c : N) : bool := (65 <=? c)%N && (c <=? 90)%N.

(** The class [[!@#$%^&*()_+=-]]: the caret is not first and the dash is
    last, so every character stands for itself. *)
Definition special_chars : jsstring := lit "!@#$%^&*()_+=-".
Definition is_special (c : N) : bool := includes special_chars c.

(** [/[class]/.test(s)]: some code unit of [s] is in the class. *)
Definition test_class (cls : N -> bool) (s : jsstring) : bool :=
  existsb cls s.

(** Anchored patterns made of [\d] and literal characters, as in
    [/^\d{3}-\d{3}-\d{4}$/]. *)
Inductive atom := Digit | Lit (c : N).

Definition atom_matches (a : atom) (c : N) : bool :=
  match a with
  | Digit => is_digit c
  | Lit d => N.eqb d c
  end.

Fixpoint test_anchored (pat : list atom) (s : jsstring) : bool :=
  match pat, s with
  | [], [] => true
  | a :: pat', c :: s' => atom_matches a c && test_anchored pat' s'
  | _, _ => false
  end.

End Js.

Import Js.

(** ** core/utilities *)

(** Modelled from the spec: [validationFunctions.isStringProvided] is
    imported from [core/utilities], which is not among the sources.  The
    spec describes the check as failing when a required field is "absent
    or empty". *)
Definition isStringProvided (candidate : jsvalue) : bool :=
  match candidate with
  | Some (_ :: _) => true
  | _ => false
  end.

(** The other imports of the routers: [credentialingFunctions] (salt and
    hash), [jsonwebtoken] and the signing secret read from the process
    environment.  They are collaborators of the pipeline and stay
    abstract; [Entropy] is what a call of [generateSalt] draws from.
    [jwt_sign] is jsonwebtoken's signature under a secret that has a
    value: it returns the token, or [None] when it throws.  A token is
    the serialization header.payload.signature, never the empty string.
    [key_secret] is [process.env.JSON_WEB_TOKEN], which may be unset. *)
Class Utilities := {
  Entropy : Type;
  generateSalt : nat -> Entropy -> jsstring;
  generateHash : jsvalue -> jsstring -> jsstring;
  jwt_sign : Z -> jsstring -> string -> option jsstring;
  key_secret : jsvalue;
  jwt_sign_token :
    forall i k ttl tok, jwt_sign i k ttl = Some tok -> tok <> []
}.

(** [jwt.sign({ id }, key.secret, { expiresIn })]: jsonwebtoken throws
    when the secret is undefined or the empty string, before it signs
    anything. *)
Definition sign `{Utilities} (id : Z) (secret : jsvalue) (expiresIn : string)
  : option jsstring :=
  match secret with
  | Some (c :: k) => jwt_sign id (c :: k) expiresIn
  | _ => None
  end.

(** ** The connection pool *)

Record AccountRow := {
  account_id : Z;
  acc_username : jsstring;
  acc_email : jsstring;
  acc_phone : jsstring
}.

Record CredentialRow := {
  cred_account_id : Z;
  salted_hash : jsstring;
  salt : jsstring
}.

(** The three statements the routers send, with their parameters. *)
Inductive statement :=
| SelectByUsername (username : jsvalue)
| SelectByIdentity (username email phone : jsvalue)
| UpdateCredential (saltedHash saltValue : jsstring) (id : Z).

(** A query promise resolves with rows (the selected [account_id]s; none
    for an update) or rejects. *)
Inductive query_result :=
| Resolved (rows : list Z)
| Rejected.

Record Pool := {
  Account : list AccountRow;
  Account_Credential : list CredentialRow;
  failures : list bool;
  issued : list (statement * query_result)
}.

(** [column = $n]: an [undefined] parameter is sent as NULL and equals
    nothing. *)
Definition column_eqb (column : jsstring) (param : jsvalue) : bool :=
  match param with
  | Some s => jsstring_eqb column s
  | None => false
  end.

Definition where_username (u : jsvalue) (r : AccountRow) : bool :=
  column_eqb (acc_username r) u.

Definition where_identity (u e ph : jsvalue) (r : AccountRow) : bool :=
  column_eqb (acc_username r) u &&
  column_eqb (acc_email r) e &&
  column_eqb (acc_phone r) ph.

Definition set_credential (h s : jsstring) (id : Z) (c : CredentialRow)
  : CredentialRow :=
  if Z.eqb (cred_account_id c) id
  then {| cred_account_id := cred_account_id c; salted_hash := h; salt := s |}
  else c.

Definition rows_of (p : Pool) (q : statement) : list Z :=
  match q with
  | SelectByUsername u =>
      List.map account_id (List.filter (where_username u) (Account p))
  | SelectByIdentity u e ph =>
      List.map account_id (List.filter (where_identity u e ph) (Account p))
  | UpdateCredential _ _ _ => []
  end.

Definition credentials_after (p : Pool) (q : statement) : list CredentialRow :=
  match q with
  | UpdateCredential h s id =>
      List.map (set_credential h s id) (Account_Credential p)
  | _ => Account_Credential p
  end.

(** [pool.query(text, values)]: the head of the failure schedule says
    whether this statement is rejected; a rejected statement changes no
    table.  Every statement is logged with its fate. *)
Definition pool_query (p : Pool) (q : statement) : query_result * Pool :=
  let rejected := hd false (failures p) in
  let res := if rejected then Rejected else Resolved (rows_of p q) in
  (res,
   {| Account := Account p;
      Account_Credential :=
        if rejected then Account_Credential p else credentials_after p q;
      failures := tl (failures p);
      issued := issued p ++ [(q, res)] |}).

(** The statements issued between two pool states. *)
Definition statements_between (p p' : Pool) : list (statement * query_result) :=
  skipn (List.length (issued p)) (issued p').

(** ** Requests, responses and the middleware stack *)

Record Body := {
  username : jsvalue;
  email : jsvalue;
  phone : jsvalue;
  password : jsvalue;
  newPassword : jsvalue;
  confirmNewPassword : jsvalue
}.

(** [IUserRequest]: the body and the [id] the resolver bolts on. *)
Record Request := {
  body : Body;
  id : option Z
}.

Definition set_id (r : Request) (i : Z) : Request :=
  {| body := body r; id := Some i |}.

(** [!request.id]: [undefined] and the number 0 are falsy. *)
Definition id_falsy (i : option Z) : bool :=
  match i with
  | None => true
  | Some z => Z.eqb z 0
  end.

Record Response := {
  status : Z;
  message : string;
  resetToken : option jsstring
}.

Definition error (code : Z) (msg : string) : Response :=
  {| status := code; message := msg; resetToken := None |}.

(** What one handler of a route does: call [next()], send the response,
    or throw. *)
Inductive step :=
| Next (r : Request)
| Send (resp : Response)
| Throw.

Definition middleware := Pool -> Request -> step * Pool.

Inductive outcome :=
| Sent (resp : Response)
| Threw
| Unanswered.

Fixpoint dispatch (stack : list middleware) (p : Pool) (r : Request)
  : outcome * Pool :=
  match stack with
  | [] => (Unanswered, p)
  | m :: rest =>
      match m p r with
      | (Next r', p') => dispatch rest p' r'
      | (Send resp, p') => (Sent resp, p')
      | (Throw, p') => (Threw, p')
      end
  end.

(** A handler that does not touch the pool. *)
Definition validator (f : Request -> step) : middleware :=
  fun p r => (f r, p).

(** ** Validators *)

Module ForgotPassword.

(** [isValidNewPassword] of the forgot-password router; it is only called
    on a provided string. *)
Definition isValidNewPassword (newPassword : jsstring) : bool :=
  (8 <=? List.length newPassword)%nat &&
  (List.length newPassword <=? 24)%nat &&
  test_class is_special newPassword &&
  test_class is_digit newPassword &&
  test_class is_lower newPassword &&
  test_class is_upper newPassword.

Definition phone_pattern : list atom :=
  [Digit; Digit; Digit; Lit (code "-");
   Digit; Digit; Digit; Lit (code "-");
   Digit; Digit; Digit; Digit].

Definition isValidPhone (phone : jsstring) : bool :=
  test_anchored phone_pattern phone.

Definition isValidEmail (email : jsstring) : bool :=
  includes email (code "@").

Definition msg_missing : string := "Missing a parameter".
Definition msg_mismatch : string := "The passwords do not match".
Definition msg_invalid_password : string :=
  "Invalid new password - please refer to documentation".
Definition msg_invalid_email : string :=
  "Invalid email - please refer to registration documentation".
Definition msg_invalid_phone : string :=
  "Invalid phone number - please refer to registration documentation".
Definition msg_not_found : string :=
  "User does not exist within the Database".
Definition msg_lookup_failed : string :=
  "Unexpected issue on account retrieval in the database".
Definition msg_no_id : string :=
  "Unexpected issue on retrieving user in the database".
Definition msg_update_failed : string :=
  "Unexpected issue on updating password in the database".
Definition msg_updated : string := "Password updated successfully".

Definition checkParameters (r : Request) : step :=
  if isStringProvided (username (body r)) &&
     isStringProvided (email (body r)) &&
     isStringProvided (newPassword (body r)) &&
     isStringProvided (confirmNewPassword (body r)) &&
     isStringProvided (phone (body r))
  then Next r
  else Send (error 400 msg_missing).

(** Reading [.length] of an absent [newPassword] throws. *)
Definition checkPassword (r : Request) : step :=
  match newPassword (body r) with
  | None => Throw
  | Some pw =>
      if isValidNewPassword pw then
        if loose_eqb (newPassword (body r)) (confirmNewPassword (body r))
        then Next r
        else Send (error 400 msg_mismatch)
      else Send (error 400 msg_invalid_password)
  end.

Definition checkEmail (r : Request) : step :=
  match email (body r) with
  | None => Throw
  | Some e =>
      if isValidEmail e then Next r
      else Send (error 400 msg_invalid_email)
  end.

(** [RegExp.prototype.test] turns its argument into a string first: an
    absent [phone] is tested as the string "undefined". *)
Definition checkPhone (r : Request) : step :=
  let subject :=
    match phone (body r) with
    | Some ph => ph
    | None => lit "undefined"
    end in
  if isValidPhone subject then Next r
  else Send (error 400 msg_invalid_phone).

Definition resolveAccount : middleware := fun p r =>
  let theQuery :=
    SelectByIdentity (username (body r)) (email (body r)) (phone (body r)) in
  match pool_query p theQuery with
  | (Resolved [], p') => (Send (error 404 msg_not_found), p')
  | (Resolved (first :: _), p') => (Next (set_id r first), p')
  | (Rejected, p') => (Send (error 500 msg_lookup_failed), p')
  end.

Definition rotateCredential `{Utilities} (rnd : Entropy) : middleware :=
  fun p r =>
  if id_falsy (id r) then (Send (error 500 msg_no_id), p)
  else
    match id r with
    | None => (Send (error 500 msg_no_id), p)
    | Some i =>
        let salt := generateSalt 32 rnd in
        let saltedHash := generateHash (newPassword (body r)) salt in
        match pool_query p (UpdateCredential saltedHash salt i) with
        | (Resolved _, p') =>
            match sign i key_secret "15m" with
            | Some resetToken =>
                (Send {| status := 200; message := msg_updated;
                         resetToken := Some resetToken |}, p')
            | None => (Send (error 500 msg_update_failed), p')
            end
        | (Rejected, p') => (Send (error 500 msg_update_failed), p')
        end
    end.

Definition forgotPasswordRouter `{Utilities} (rnd : Entropy)
  : list middleware :=
  [ validator checkParameters;
    validator checkPassword;
    validator checkEmail;
    validator checkPhone;
    resolveAccount;
    rotateCredential rnd ].

End ForgotPassword.

Module ChangePassword.

(** [isValidNewPassword] of the change-password router: the same policy,
    guarded by [isStringProvided]. *)
Definition isValidNewPassword (newPassword : jsvalue) : bool :=
  isStringProvided newPassword &&
  match newPassword with
  | Some s =>
      (8 <=? List.length s)%nat &&
      (List.length s <=? 24)%nat &&
      test_class is_special s &&
      test_class is_digit s &&
      test_class is_lower s &&
      test_class is_upper s
  | None => false
  end.

Definition msg_missing : string := "Missing required information".
Definition msg_invalid_password : string :=
  "Invalid New Password  - please refer to documentation".
Definition msg_not_found : string :=
  "User does not exist within the database with the provided inputs".
Definition msg_lookup_failed : string := "DB server error - contact support".
Definition msg_server_error : string := "Server error - contact support".
Definition msg_updated : string := "Password updated successfully".

Definition checkParameters (r : Request) : step :=
  if isStringProvided (username (body r)) &&
     isStringProvided (password (body r)) &&
     isStringProvided (newPassword (body r)) &&
     isStringProvided (confirmNewPassword (body r))
  then Next r
  else Send (error 400 msg_missing).

Definition checkPassword (r : Request) : step :=
  if isValidNewPassword (newPassword (body r)) then Next r
  else Send (error 400 msg_invalid_password).

Definition resolveAccount : middleware := fun p r =>
  let theQuery := SelectByUsername (username (body r)) in
  match pool_query p theQuery with
  | (Resolved [], p') => (Send (error 400 msg_not_found), p')
  | (Resolved (first :: _), p') => (Next (set_id r first), p')
  | (Rejected, p') => (Send (error 500 msg_lookup_failed), p')
  end.

Definition rotateCredential `{Utilities} (rnd : Entropy) : middleware :=
  fun p r =>
  if id_falsy (id r) then (Send (error 500 msg_server_error), p)
  else
    match id r with
    | None => (Send (error 500 msg_server_error), p)
    | Some i =>
        let salt := generateSalt 32 rnd in
        let saltedHash := generateHash (newPassword (body r)) salt in
        match pool_query p (UpdateCredential saltedHash salt i) with
        | (Resolved _, p') =>
            match sign i key_secret "15m" with
            | Some resetToken =>
                (Send {| status := 200; message := msg_updated;
                         resetToken := Some resetToken |}, p')
            | None => (Send (error 500 msg_server_error), p')
            end
        | (Rejected, p') => (Send (error 500 msg_server_error), p')
        end
    end.

Definition changePasswordRouter `{Utilities} (rnd : Entropy)
  : list middleware :=
  [ validator checkParameters;
    validator checkPassword;
    resolveAccount;
    rotateCredential rnd ].

End ChangePassword.

(** ** The two endpoints side by side *)

Inductive endpoint := ChangePasswordEndpoint | ForgotPasswordEndpoint.

Definition router `{Utilities} (e : endpoint) (rnd : Entropy)
  : list middleware :=
  match e with
  | ChangePasswordEndpoint => ChangePassword.changePasswordRouter rnd
  | ForgotPasswordEndpoint => ForgotPassword.forgotPasswordRouter rnd
  end.

(** One request through a route of the application. *)
Definition handle `{Utilities} (e : endpoint) (rnd : Entropy)
  (p : Pool) (b : Body) : outcome * Pool :=
  dispatch (router e rnd) p {| body := b; id := None |}.

(** The two handlers of a route that talk to the pool: the resolver and
    the rotator. *)
Definition store_handlers `{Utilities} (e : endpoint) (rnd : Entropy)
  : list middleware :=
  match e with
  | ChangePasswordEndpoint =>
      [ChangePassword.resolveAccount; ChangePassword.rotateCredential rnd]
  | ForgotPasswordEndpoint =>
      [ForgotPassword.resolveAccount; ForgotPassword.rotateCredential rnd]
  end.

(** ** What differs between the two routes *)

Module Route.

Definition lookup_failed_message (e : endpoint) : string :=
  match e with
  | ChangePasswordEndpoint => ChangePassword.msg_lookup_failed
  | ForgotPasswordEndpoint => ForgotPassword.msg_lookup_failed
  end.

Definition missing_message (e : endpoint) : string :=
  match e with
  | ChangePasswordEndpoint => ChangePassword.msg_missing
  | ForgotPasswordEndpoint => ForgotPassword.msg_missing
  end.

Definition invalid_password_message (e : endpoint) : string :=
  match e with
  | ChangePasswordEndpoint => ChangePassword.msg_invalid_password
  | ForgotPasswordEndpoint => ForgotPassword.msg_invalid_password
  end.

Definition no_id_message (e : endpoint) : string :=
  match e with
  | ChangePasswordEndpoint => ChangePassword.msg_server_error
  | ForgotPasswordEndpoint => ForgotPassword.msg_no_id
  end.

Definition update_failed_message (e : endpoint) : string :=
  match e with
  | ChangePasswordEndpoint => ChangePassword.msg_server_error
  | ForgotPasswordEndpoint => ForgotPassword.msg_update_failed
  end.

(** The lookup statement of each variant. *)
Definition lookup (e : endpoint) (b : Body) : statement :=
  match e with
  | ChangePasswordEndpoint => SelectByUsername (username b)
  | ForgotPasswordEndpoint => SelectByIdentity (username b) (email b) (phone b)
  end.

Definition not_found_status (e : endpoint) : Z :=
  match e with
  | ChangePasswordEndpoint => 400
  | ForgotPasswordEndpoint => 404
  end.

Definition not_found_message (e : endpoint) : string :=
  match e with
  | ChangePasswordEndpoint => ChangePassword.msg_not_found
  | ForgotPasswordEndpoint => ForgotPassword.msg_not_found
  end.

(** The update statement of the rotator, the same on both routes. *)
Definition rotation `{Utilities} (rnd : Entropy) (b : Body) (i : Z)
  : statement :=
  UpdateCredential (generateHash (newPassword b) (generateSalt 32 rnd))
    (generateSalt 32 rnd) i.

(** The success response, the same on both routes. *)
Definition updated (resetToken : jsstring) : Response :=
  {| status := 200; message := "Password updated successfully";
     resetToken := Some resetToken |}.

(** What is sent once the update has resolved: the token, or the answer of
    the chained [catch] when signing threw. *)
Definition after_update `{Utilities} (e : endpoint) (i : Z) : Response :=
  match sign i key_secret "15m" with
  | Some resetToken => updated resetToken
  | None => error 500 (update_failed_message e)
  end.

End Route.

(** ** The specification's vocabulary *)

Module Spec.

(** The fields each variant requires (section 4.1 of the specification). *)
Definition required (e : endpoint) : list (Body -> jsvalue) :=
  match e with
  | ChangePasswordEndpoint =>
      [username; password; newPassword; confirmNewPassword]
  | ForgotPasswordEndpoint =>
      [username; email; phone; newPassword; confirmNewPassword]
  end.

Definition absent_or_empty (v : jsvalue) : Prop :=
  v = None \/ v = Some [].

Definition all_present (e : endpoint) (b : Body) : Prop :=
  Forall (fun field => ~ absent_or_empty (field b)) (required e).

Definition uppercase_letter (c : N) : Prop := (code "A" <= c <= code "Z")%N.
Definition lowercase_letter (c : N) : Prop := (code "a" <= c <= code "z")%N.
Definition digit (c : N) : Prop := (code "0" <= c <= code "9")%N.
Definition special_character (c : N) : Prop :=
  In c (lit "!@#$%^&*()_+=-").

Definition contains (P : N -> Prop) (s : jsstring) : Prop :=
  exists c, In c s /\ P c.

(** The password policy in the specification's words. *)
Definition policy (s : jsstring) : Prop :=
  (8 <= List.length s <= 24)%nat /\
  contains uppercase_letter s /\
  contains lowercase_letter s /\
  contains digit s /\
  contains special_character s.

Definition satisfies_policy (v : jsvalue) : Prop :=
  exists s, v = Some s /\ policy s.

(** Digits grouped 3-3-4 and separated by dashes. *)
Definition grouped_3_3_4 (s : jsstring) : Prop :=
  exists a b c, s = a ++ [code "-"] ++ b ++ [code "-"] ++ c /\
    List.length a = 3%nat /\ List.length b = 3%nat /\ List.length c = 4%nat /\
    Forall digit a /\ Forall digit b /\ Forall digit c.

(** An account row whose three attributes equal the supplied ones. *)
Definition matches_identity (u e ph : jsstring) (r : AccountRow) : Prop :=
  acc_username r = u /\ acc_email r = e /\ acc_phone r = ph.

(** A request that passes all field and policy validation of its
    variant. *)
Definition valid (e : endpoint) (b : Body) : Prop :=
  all_present e b /\
  satisfies_policy (newPassword b) /\
  match e with
  | ChangePasswordEndpoint => True
  | ForgotPasswordEndpoint =>
      newPassword b = confirmNewPassword b /\
      (exists em, email b = Some em /\ In (code "@") em) /\
      (exists ph, phone b = Some ph /\ grouped_3_3_4 ph)
  end.

(** The next statement sent to the pool will be served, and so will the
    one after it. *)
Definition served (p : Pool) : Prop := hd false (failures p) = false.
Definition served_twice (p : Pool) : Prop :=
  served p /\ hd false (tl (failures p)) = false.

End Spec.

(** ** The runs of a route

    What one request does, case by case: the response, the pool
    afterwards and the statements issued. *)

Inductive run `{Utilities} (e : endpoint) (rnd : Entropy) (p : Pool)
  (b : Body) : outcome -> Pool -> list (statement * query_result) -> Prop :=
| run_invalid msg :
    ~ Spec.valid e b ->
    run e rnd p b (Sent (error 400 msg)) p []
| run_lookup_failed p1 :
    Spec.valid e b ->
    pool_query p (Route.lookup e b) = (Rejected, p1) ->
    run e rnd p b (Sent (error 500 (Route.lookup_failed_message e))) p1
      [(Route.lookup e b, Rejected)]
| run_not_found p1 :
    Spec.valid e b ->
    pool_query p (Route.lookup e b) = (Resolved [], p1) ->
    run e rnd p b
      (Sent (error (Route.not_found_status e) (Route.not_found_message e))) p1
      [(Route.lookup e b, Resolved [])]
| run_no_id rows p1 :
    Spec.valid e b ->
    pool_query p (Route.lookup e b) = (Resolved (0%Z :: rows), p1) ->
    run e rnd p b (Sent (error 500 (Route.no_id_message e))) p1
      [(Route.lookup e b, Resolved (0%Z :: rows))]
| run_updated i rows p1 p2 resetToken :
    Spec.valid e b ->
    pool_query p (Route.lookup e b) = (Resolved (i :: rows), p1) ->
    i <> 0%Z ->
    pool_query p1 (Route.rotation rnd b i) = (Resolved [], p2) ->
    sign i key_secret "15m" = Some resetToken ->
    run e rnd p b (Sent (Route.updated resetToken)) p2
      [(Route.lookup e b, Resolved (i :: rows));
       (Route.rotation rnd b i, Resolved [])]
| run_sign_failed i rows p1 p2 :
    Spec.valid e b ->
    pool_query p (Route.lookup e b) = (Resolved (i :: rows), p1) ->
    i <> 0%Z ->
    pool_query p1 (Route.rotation rnd b i) = (Resolved [], p2) ->
    sign i key_secret "15m" = None ->
    run e rnd p b (Sent (error 500 (Route.update_failed_message e))) p2
      [(Route.lookup e b, Resolved (i :: rows));
       (Route.rotation rnd b i, Resolved [])]
| run_update_failed i rows p1 p2 :
    Spec.valid e b ->
    pool_query p (Route.lookup e b) = (Resolved (i :: rows), p1) ->
    i <> 0%Z ->
    pool_query p1 (Route.rotation rnd b i) = (Rejected, p2) ->
    run e rnd p b (Sent (error 500 (Route.update_failed_message e))) p2
      [(Route.lookup e b, Resolved (i :: rows));
       (Route.rotation rnd b i, Rejected)].



(** ** Concrete collaborators and stores for the scenarios *)

Module Scenario.

(** Stand-ins for the absent collaborators: the salt is the first bytes
    of the entropy, the hash a concatenation, the token a tagged string. *)
Definition utilities : Utilities :=
  {| Entropy := jsstring;
     generateSalt := fun n rnd => firstn n rnd;
     generateHash := fun pw s =>
       match pw with Some x => x ++ s | None => s end;
     jwt_sign := fun i k ttl => Some (lit "jwt." ++ [Z.to_N i] ++ lit ttl);
     key_secret := Some (lit "secret");
     jwt_sign_token := ltac:(intros i k ttl tok [= <-]; discriminate) |}.

Definition entropy : jsstring := List.repeat 7%N 40.

Definition alice : AccountRow :=
  {| account_id := 1; acc_username := lit "alice";
     acc_email := lit "a@x.com"; acc_phone := lit "123-456-7890" |}.

Definition bob : AccountRow :=
  {| account_id := 2; acc_username := lit "bob";
     acc_email := lit "bob@x.com"; acc_phone := lit "1234567890" |}.

Definition zero : AccountRow :=
  {| account_id := 0; acc_username := lit "zero";
     acc_email := lit "z@x.com"; acc_phone := lit "000-000-0000" |}.

Definition credential (i : Z) : CredentialRow :=
  {| cred_account_id := i; salted_hash := lit "old-hash";
     salt := lit "old-salt" |}.

Definition store : Pool :=
  {| Account := [alice; bob; zero];
     Account_Credential := [credential 1; credential 2; credential 0];
     failures := [];
     issued := [] |}.

(** The same store when its second statement is going to be rejected. *)
Definition store_update_fails : Pool :=
  {| Account := Account store;
     Account_Credential := Account_Credential store;
     failures := [false; true];
     issued := [] |}.

Definition forgot (u e ph pw confirm : string) : Body :=
  {| username := Some (lit u); email := Some (lit e); phone := Some (lit ph);
     password := None;
     newPassword := Some (lit pw); confirmNewPassword := Some (lit confirm) |}.

Definition change (u current pw confirm : string) : Body :=
  {| username := Some (lit u); email := None; phone := None;
     password := Some (lit current);
     newPassword := Some (lit pw); confirmNewPassword := Some (lit confirm) |}.

(** Scenario A of the specification. *)
Definition scenario_A : Body :=
  forgot "alice" "a@x.com" "123-456-7890" "Abcde1!2" "Abcde1!2".

(** Scenario C of the specification. *)
Definition scenario_C : Body :=
  change "bob" "anything" "Valid1!pw" "Valid1!pw".

(** Scenario D of the specification: bob's phone is stored undashed. *)
Definition scenario_D : Body :=
  forgot "bob" "bob@x.com" "1234567890" "Abcde1!2" "Abcde1!2".

End Scenario.

(** The handlers of a route that come before the resolver, and what they
    decide together. *)
Definition validators (e : endpoint) : list (Request -> step) :=
  match e with
  | ChangePasswordEndpoint =>
      [ChangePassword.checkParameters; ChangePassword.checkPassword]
  | ForgotPasswordEndpoint =>
      [ForgotPassword.checkParameters; ForgotPassword.checkPassword;
       ForgotPassword.checkEmail; ForgotPassword.checkPhone]
  end.

Fixpoint validate (fs : list (Request -> step)) (r : Request) : step :=
  match fs with
  | [] => Next r
  | f :: fs' =>
      match f r with
      | Next r' => validate fs' r'
      | Send resp => Send resp
      | Throw => Throw
      end
  end.

(** Further stores: one whose first statement is rejected, and one where
    alice has an account but no credential row. *)
Module Cases.

Definition store_lookup_fails : Pool :=
  {| Account := Account Scenario.store;
     Account_Credential := Account_Credential Scenario.store;
     failures := [true];
     issued := [] |}.

Definition store_without_credential : Pool :=
  {| Account := Account Scenario.store;
     Account_Credential := [Scenario.credential 2; Scenario.credential 0];
     failures := [];
     issued := [] |}.

Definition other_entropy : jsstring := List.repeat 9%N 40.

(** The same collaborators in a process whose [JSON_WEB_TOKEN] is unset. *)
Definition utilities_without_secret : Utilities :=
  {| Entropy := Entropy (Utilities := Scenario.utilities);
     generateSalt := generateSalt (Utilities := Scenario.utilities);
     generateHash := generateHash (Utilities := Scenario.utilities);
     jwt_sign := jwt_sign (Utilities := Scenario.utilities);
     key_secret := None;
     jwt_sign_token := jwt_sign_token (Utilities := Scenario.utilities) |}.

End Cases.

(** ** The book router: text helpers *)

Module Text.

(** [Array.prototype.join] on strings. *)
Fixpoint join (sep : jsstring) (l : list jsstring) : jsstring :=
  match l with
  | [] => []
  | [x] => x
  | x :: rest => x ++ sep ++ join sep rest
  end.

(** A template literal spread over several source lines. *)
Definition lines (l : list string) : jsstring :=
  join [10%N] (List.map lit l).

(** A non-negative integer inside a template literal. *)
Definition decimal (n : nat) : jsstring :=
  lit (NilEmpty.string_of_uint (Nat.to_uint n)).

(** The code units [String.prototype.trim] strips: WhiteSpace and
    LineTerminator of ECMAScript. *)
Definition is_white_space (c : N) : bool :=
  existsb (N.eqb c)
    [9; 10; 11; 12; 13; 32; 160; 5760; 8232; 8233; 8239; 8287; 12288;
     65279]%N
  || ((8192 <=? c)%N && (c <=? 8202)%N).

Fixpoint trimStart (s : jsstring) : jsstring :=
  match s with
  | [] => []
  | c :: s' => if is_white_space c then trimStart s' else s
  end.

Definition trim (s : jsstring) : jsstring :=
  List.rev (trimStart (List.rev (trimStart s))).

(** [x] occurs in [s] as a contiguous piece. *)
Definition occurs_in (x s : jsstring) : Prop :=
  exists before after, s = before ++ x ++ after.

End Text.

(** ** The book router *)

Module Book.

Import Text.

(** What the router does not look into: the values of JSON bodies and of
    database columns, the text [Array.prototype.join] gives such a value,
    and [validationFunctions.isNumberProvided], which is imported from
    [core/utilities] and here only applied to route parameters. *)
Class Driver := {
  Value : Type;
  join_text : Value -> jsstring;
  isNumberProvided : jsstring -> bool
}.

(** A row of [books], as far as [format] reads it. *)
Record Row `{Driver} := {
  id : Value;
  isbn13 : Value;
  authors : Value;
  publication_year : Value;
  original_title : Value;
  title : Value;
  rating_avg : Value;
  rating_count : Value;
  rating_1_star : Value;
  rating_2_star : Value;
  rating_3_star : Value;
  rating_4_star : Value;
  rating_5_star : Value;
  image_url : Value;
  image_small_url : Value
}.

Record IRatings `{Driver} := {
  average : Value;
  count : Value;
  rating_1 : Value;
  rating_2 : Value;
  rating_3 : Value;
  rating_4 : Value;
  rating_5 : Value
}.

Record IUrlIcon `{Driver} := {
  large : Value;
  small : Value
}.

Record IBook `{Driver} := {
  book_isbn13 : Value;
  book_authors : Value;
  publication : Value;
  book_original_title : Value;
  book_title : Value;
  ratings : IRatings;
  icons : IUrlIcon
}.

Record Entry `{Driver} := {
  entry_id : Value;
  entry_IBook : IBook
}.

Definition format `{Driver} (row : Row) : Entry :=
  {| entry_id := id row;
     entry_IBook :=
       {| book_isbn13 := isbn13 row;
          book_authors := authors row;
          publication := publication_year row;
          book_original_title := original_title row;
          book_title := title row;
          ratings :=
            {| average := rating_avg row;
               count := rating_count row;
               rating_1 := rating_1_star row;
               rating_2 := rating_2_star row;
               rating_3 := rating_3_star row;
               rating_4 := rating_4_star row;
               rating_5 := rating_5_star row |};
          icons :=
            {| large := image_url row;
               small := image_small_url row |} |} |}.

(** What [send] is given: the status and the two keys the routes below
    put in the body. *)
Record Answer `{Driver} := {
  status : Z;
  message : option jsstring;
  entries : option (list Entry)
}.

Definition refuse `{Driver} (code : Z) (msg : string) : Answer :=
  {| status := code; message := Some (lit msg); entries := None |}.

(** A value handed to [pool.query]: a route parameter or a body value. *)
Inductive param `{Driver} :=
| Text (s : jsstring)
| Json (v : Value).

Record statement `{Driver} := {
  text : jsstring;
  parameters : list param
}.

(** The promise of [pool.query] resolves with rows of [books] or rejects;
    the rejection is what the [catch] of each handler receives. *)
Inductive reply `{Driver} :=
| Resolved (rows : list Row)
| Rejected.

(** An async handler: it sends its answer, or awaits a statement and goes
    on with the reply. *)
Inductive handler `{Driver} :=
| Send (a : Answer)
| Await (q : statement) (k : reply -> handler).

(** A middleware function either sends an answer or calls [next()]. *)
Definition route `{Driver} (mw : option Answer) (h : handler) : handler :=
  match mw with
  | Some a => Send a
  | None => h
  end.

(** A handler against the replies the pool is going to give: the answer,
    if the handler got that far, and the statements sent, in order. *)
Fixpoint exec `{Driver} (h : handler) (replies : list reply)
  : option Answer * list statement :=
  match h with
  | Send a => (Some a, [])
  | Await q k =>
      match replies with
      | [] => (None, [q])
      | r :: rest =>
          let (a, sent) := exec (k r) rest in (a, q :: sent)
      end
  end.

(** *** GET /author/:author, /isbn/:isbn, /title/:title, /year/:year

    The four handlers are the same code around a different statement,
    parameter and not-found message. *)
Definition select `{Driver} (theQuery : jsstring) (value : jsstring)
  (notFound : string) : handler :=
  Await {| text := theQuery; parameters := [Text value] |}
    (fun r =>
       match r with
       | Resolved rows =>
           if (List.length rows =? 0)%nat
           then Send (refuse 404 notFound)
           else Send {| status := 200; message := None;
                        entries := Some (List.map format rows) |}
       | Rejected => Send (refuse 500 "Internal Server Error")
       end).

Definition getByAuthor `{Driver} (author : jsstring) : handler :=
  select (lines ["SELECT * ";
                 "        FROM books WHERE authors=$1 ";
                 "        ORDER BY id"]%string)
    author "Author not Found".

Definition getByIsbn `{Driver} (isbn : jsstring) : handler :=
  select (lines ["SELECT * ";
                 "        FROM books WHERE isbn13=$1";
                 "        ORDER BY id"]%string)
    isbn "ISBN not found".

Definition getByTitle `{Driver} (title : jsstring) : handler :=
  select (lines ["SELECT * ";
                 "        FROM books WHERE title ILIKE $1";
                 "        ORDER BY id"]%string)
    (lit "%" ++ title ++ lit "%") "Title not found".

Definition getByYear `{Driver} (year : jsstring) : handler :=
  select (lines ["SELECT * ";
                 "        FROM books WHERE publication_year=$1";
                 "        ORDER BY id"]%string)
    year "No Books with the publication year given was found".

(** *** PUT /rate/:id *)

Module Rate.

Record Body `{Driver} := {
  rating_1_star : option Value;
  rating_2_star : option Value;
  rating_3_star : option Value;
  rating_4_star : option Value;
  rating_5_star : option Value
}.

(** [updates], [values] and [index] as the handler grows them. *)
Record draft `{Driver} := {
  updates : list jsstring;
  values : list param;
  index : nat
}.

(** One [if (rating !== undefined) { push; push; index++ }]. *)
Definition provide `{Driver} (clause : string) (rating : option Value)
  (d : draft) : draft :=
  match rating with
  | Some v =>
      {| updates := updates d ++ [lit clause ++ decimal (index d)];
         values := values d ++ [Json v];
         index := S (index d) |}
  | None => d
  end.

Definition param_text `{Driver} (x : param) : jsstring :=
  match x with
  | Text s => s
  | Json v => join_text v
  end.

Definition average_clause : jsstring :=
  lines [
    "";
    "            rating_avg = (";
    "                (rating_1_star * 1 + rating_2_star * 2 + rating_3_star * 3 + rating_4_star * 4 + rating_5_star * 5)::float /";
    "                NULLIF(rating_count, 0)";
    "            )";
    "        " ]%string.

Definition collect `{Driver} (body : Body) : draft :=
  let d := {| updates := []; values := []; index := 1 |} in
  let d := provide "rating_1_star = rating_1_star + $" (rating_1_star body) d in
  let d := provide "rating_2_star = rating_2_star + $" (rating_2_star body) d in
  let d := provide "rating_3_star = rating_3_star + $" (rating_3_star body) d in
  let d := provide "rating_4_star = rating_4_star + $" (rating_4_star body) d in
  provide "rating_5_star = rating_5_star + $" (rating_5_star body) d.

Definition rate `{Driver} (id : jsstring) (body : Body) : handler :=
  let d := collect body in
  if (List.length (updates d) =? 0)%nat
  then Send (refuse 400 "No valid rating fields provided for update")
  else
    let updates :=
      updates d
      ++ [lit "rating_count = rating_count + "
          ++ join (lit " + ") (List.map param_text (values d))]
      ++ [average_clause] in
    let theQuery :=
      lit "UPDATE books SET " ++ join (lit ", ") updates
      ++ lit " WHERE id = $" ++ decimal (index d) ++ lit " RETURNING *" in
    let values := values d ++ [Text id] in
    Await {| text := theQuery; parameters := values |}
      (fun r =>
         match r with
         | Resolved rows =>
             if (List.length rows =? 0)%nat
             then Send (refuse 404 "Book not found")
             else Send {| status := 200;
                          message :=
                            Some (lit "Book ratings updated successfully");
                          entries := Some (List.map format rows) |}
         | Rejected => Send (refuse 500 "Internal server error")
         end).

(** The ratings a body provides, with the column each one goes to, in the
    order the handler looks at them. *)
Definition provided `{Driver} (body : Body) : list (string * Value) :=
  List.concat
    (List.map (fun cv : string * option Value =>
                 match snd cv with
                 | Some v => [(fst cv, v)]
                 | None => []
                 end)
       [("rating_1_star", rating_1_star body);
        ("rating_2_star", rating_2_star body);
        ("rating_3_star", rating_3_star body);
        ("rating_4_star", rating_4_star body);
        ("rating_5_star", rating_5_star body)]%string).

(** [column = column + $n]. *)
Definition increment (column : string) (n : nat) : jsstring :=
  lit column ++ lit " = " ++ lit column ++ lit " + $" ++ decimal n.

End Rate.

(** *** DELETE /isbn/:isbn *)

Definition mwValidBookDeleteISBN `{Driver} (isbn : jsstring) : option Answer :=
  if negb (isNumberProvided isbn) || negb (List.length isbn =? 13)%nat
  then Some (refuse 400 "ISBN must be a 13-digit number")
  else None.

(** [!isbn] on a string: the empty string is falsy. *)
Definition deleteByIsbn `{Driver} (isbn : jsstring) : handler :=
  match isbn with
  | [] => Send (refuse 400 "ISBN not provided")
  | _ =>
      Await {| text := lit "DELETE FROM books WHERE isbn13=$1 RETURNING *";
               parameters := [Text isbn] |}
        (fun r =>
           match r with
           | Resolved rows =>
               if (List.length rows =? 0)%nat
               then Send (refuse 404 "Book not found")
               else Send {| status := 200;
                            message :=
                              Some (lit "Book by ISBN has been successfully deleted");
                            entries := Some (List.map format rows) |}
           | Rejected => Send (refuse 500 "Internal Server Error")
           end)
  end.

Definition deleteIsbnRoute `{Driver} (isbn : jsstring) : handler :=
  route (mwValidBookDeleteISBN isbn) (deleteByIsbn isbn).

(** *** DELETE /series/:seriesName *)

Definition mwValidBookDeleteSeries `{Driver} (seriesName : jsstring)
  : option Answer :=
  if negb (isStringProvided (Some seriesName))
     || jsstring_eqb (trim seriesName) []
  then Some (refuse 400 "Series name is required")
  else None.

Definition seriesQuery : jsstring :=
  lines [
    "";
    "                DELETE FROM books ";
    "                WHERE title ILIKE '%(' || $1 || ', #%'";
    "                RETURNING *;";
    "            " ]%string.

Definition standaloneQuery : jsstring :=
  lines [
    "";
    "                DELETE FROM books ";
    "                WHERE title = $1";
    "                AND title NOT LIKE '%(%)%'";
    "                RETURNING *;";
    "            " ]%string.

Definition deleteSeries `{Driver} (seriesName : jsstring) : handler :=
  Await {| text := seriesQuery; parameters := [Text seriesName] |}
    (fun r =>
       match r with
       | Rejected => Send (refuse 500 "Internal server error")
       | Resolved seriesRows =>
           if (0 <? List.length seriesRows)%nat
           then
             Send {| status := 200;
                     message :=
                       Some (lit "Successfully deleted "
                             ++ decimal (List.length seriesRows)
                             ++ lit " books within the specified series");
                     entries := Some (List.map format seriesRows) |}
           else
             Await {| text := standaloneQuery;
                      parameters := [Text seriesName] |}
               (fun r' =>
                  match r' with
                  | Rejected => Send (refuse 500 "Internal server error")
                  | Resolved standaloneRows =>
                      if (0 <? List.length standaloneRows)%nat
                      then
                        Send {| status := 200;
                                message :=
                                  Some (lit "Successfully deleted the standalone book titled "
                                        ++ [34%N] ++ seriesName ++ [34%N]);
                                entries := Some (List.map format seriesRows) |}
                      else
                        Send (refuse 404
                                "No books found with the specified series name or title")
                  end)
       end).

Definition deleteSeriesRoute `{Driver} (seriesName : jsstring) : handler :=
  route (mwValidBookDeleteSeries seriesName) (deleteSeries seriesName).

(** [DELETE /series] without a name. *)
Definition deleteSeriesWithoutName `{Driver} : handler :=
  Send (refuse 400 "Series name is required").

(** The four lookups by one parameter. *)
Inductive lookup := ByAuthor | ByIsbn | ByTitle | ByYear.

Definition get `{Driver} (by_what : lookup) (x : jsstring) : handler :=
  match by_what with
  | ByAuthor => getByAuthor x
  | ByIsbn => getByIsbn x
  | ByTitle => getByTitle x
  | ByYear => getByYear x
  end.

(** A driver to run the routes on: values are strings, [join] prints
    them as they are, and a number is a non-empty run of digits. *)
Definition strings : Driver :=
  {| Value := jsstring;
     join_text := fun v => v;
     isNumberProvided := fun s => negb (jsstring_eqb s []) && forallb is_digit s |}.

(** A row of strings, every column holding [x]. *)
Definition row_of_strings (x : jsstring) : Row (H := strings) :=
  @Build_Row strings x x x x x x x x x x x x x x x.

(** A body that rates one and three stars, as strings. *)
Definition two_ratings : Rate.Body (H := strings) :=
  @Rate.Build_Body strings (Some (lit "1")) None (Some (lit "2")) None None.

End Book.

(** * Properties *)

(** ** Strings and validators *)

Lemma jsstring_eqb_eq (a b : jsstring) : jsstring_eqb a b = true <-> a = b.
Proof.
  unfold jsstring_eqb. destruct (list_eq_dec N.eq_dec a b); split; congruence.
Qed.

Lemma jsstring_eqb_refl (a : jsstring) : jsstring_eqb a a = true.
Proof. now apply jsstring_eqb_eq. Qed.

Lemma isStringProvided_false (v : jsvalue) :
  isStringProvided v = false <-> Spec.absent_or_empty v.
Proof.
  unfold Spec.absent_or_empty.
  destruct v as [[|c s]|]; simpl; split; intros; auto;
    try discriminate; destruct H; discriminate.
Qed.

Lemma isStringProvided_true (v : jsvalue) :
  isStringProvided v = true <-> ~ Spec.absent_or_empty v.
Proof.
  rewrite <- isStringProvided_false.
  destruct (isStringProvided v); split; congruence.
Qed.

Example scenario_A_runs :
  handle (H := Scenario.utilities) ForgotPasswordEndpoint Scenario.entropy
    Scenario.store Scenario.scenario_A
  = (Sent {| status := 200; message := "Password updated successfully";
             resetToken := Some (lit "jwt." ++ [1%N] ++ lit "15m") |},
     {| Account := Account Scenario.store;
        Account_Credential :=
          [ {| cred_account_id := 1;
               salted_hash := lit "Abcde1!2" ++ List.repeat 7%N 32;
               salt := List.repeat 7%N 32 |};
            Scenario.credential 2; Scenario.credential 0 ];
        failures := [];
        issued :=
          [ (SelectByIdentity (Some (lit "alice")) (Some (lit "a@x.com"))
               (Some (lit "123-456-7890")), Resolved [1%Z]);
            (UpdateCredential (lit "Abcde1!2" ++ List.repeat 7%N 32)
               (List.repeat 7%N 32) 1, Resolved []) ] |}).
Proof. vm_compute. reflexivity. Qed.

Lemma test_class_contains (cls : N -> bool) (P : N -> Prop) (s : jsstring) :
  (forall c, cls c = true <-> P c) ->
  test_class cls s = true <-> Spec.contains P s.
Proof.
  intros Hcls. unfold test_class, Spec.contains. rewrite existsb_exists.
  split; intros (c & Hin & Hc); exists c; split; auto; now apply Hcls.
Qed.

Lemma is_upper_spec (c : N) : is_upper c = true <-> Spec.uppercase_letter c.
Proof.
  unfold is_upper, Spec.uppercase_letter.
  change (code "A") with 65%N. change (code "Z") with 90%N.
  rewrite andb_true_iff, !N.leb_le. reflexivity.
Qed.

Lemma is_lower_spec (c : N) : is_lower c = true <-> Spec.lowercase_letter c.
Proof.
  unfold is_lower, Spec.lowercase_letter.
  change (code "a") with 97%N. change (code "z") with 122%N.
  rewrite andb_true_iff, !N.leb_le. reflexivity.
Qed.

Lemma is_digit_spec (c : N) : is_digit c = true <-> Spec.digit c.
Proof.
  unfold is_digit, Spec.digit.
  change (code "0") with 48%N. change (code "9") with 57%N.
  rewrite andb_true_iff, !N.leb_le. reflexivity.
Qed.

Lemma includes_In (s : jsstring) (c : N) : includes s c = true <-> In c s.
Proof.
  unfold includes. rewrite existsb_exists. split.
  - intros (x & Hin & Heq). apply N.eqb_eq in Heq. now subst.
  - intros Hin. exists c. split; auto. apply N.eqb_refl.
Qed.

Lemma is_special_spec (c : N) : is_special c = true <-> Spec.special_character c.
Proof. unfold is_special, Spec.special_character. apply includes_In. Qed.

Lemma forgot_policy_spec (s : jsstring) :
  ForgotPassword.isValidNewPassword s = true <-> Spec.policy s.
Proof.
  unfold ForgotPassword.isValidNewPassword, Spec.policy.
  rewrite !andb_true_iff, !Nat.leb_le.
  rewrite (test_class_contains _ _ s is_special_spec).
  rewrite (test_class_contains _ _ s is_digit_spec).
  rewrite (test_class_contains _ _ s is_lower_spec).
  rewrite (test_class_contains _ _ s is_upper_spec).
  tauto.
Qed.

Lemma change_policy_spec (v : jsvalue) :
  ChangePassword.isValidNewPassword v = true <-> Spec.satisfies_policy v.
Proof.
  unfold ChangePassword.isValidNewPassword, Spec.satisfies_policy.
  destruct v as [s|].
  - change ((8 <=? List.length s)%nat && (List.length s <=? 24)%nat &&
            test_class is_special s && test_class is_digit s &&
            test_class is_lower s && test_class is_upper s)
      with (ForgotPassword.isValidNewPassword s).
    rewrite andb_true_iff, forgot_policy_spec. split.
    + intros [_ Hp]. now exists s.
    + intros (s' & [= <-] & Hp). split; auto.
      destruct s as [|c s]; auto.
      destruct Hp as [[Hlen _] _]. simpl in Hlen. lia.
  - simpl. split; [discriminate|]. intros (s & Hs & _). discriminate.
Qed.

Lemma forgot_policy_value (s : jsstring) :
  ForgotPassword.isValidNewPassword s = true <-> Spec.satisfies_policy (Some s).
Proof.
  rewrite forgot_policy_spec. unfold Spec.satisfies_policy. split.
  - intros Hp. now exists s.
  - now intros (s' & [= <-] & Hp).
Qed.

(** ** The middleware stack *)

Lemma dispatch_validator (f : Request -> step) (rest : list middleware)
  (p : Pool) (r : Request) :
  dispatch (validator f :: rest) p r =
  match f r with
  | Next r' => dispatch rest p r'
  | Send resp => (Sent resp, p)
  | Throw => (Threw, p)
  end.
Proof. unfold validator. simpl. now destruct (f r). Qed.

Lemma all_present_change (b : Body) :
  Spec.all_present ChangePasswordEndpoint b ->
  ChangePassword.checkParameters {| body := b; id := None |}
  = Next {| body := b; id := None |}.
Proof.
  unfold Spec.all_present, Spec.required, ChangePassword.checkParameters.
  intros Hall.
  repeat match goal with
         | Hf : Forall _ (_ :: _) |- _ =>
             let Hh := fresh "Hh" in
             inversion Hf as [|? ? Hh ?]; subst; clear Hf;
             apply isStringProvided_true in Hh
         end.
  simpl. now rewrite Hh, Hh0, Hh1, Hh2.
Qed.

Lemma all_present_forgot (b : Body) :
  Spec.all_present ForgotPasswordEndpoint b ->
  ForgotPassword.checkParameters {| body := b; id := None |}
  = Next {| body := b; id := None |}.
Proof.
  unfold Spec.all_present, Spec.required, ForgotPassword.checkParameters.
  intros Hall.
  repeat match goal with
         | Hf : Forall _ (_ :: _) |- _ =>
             let Hh := fresh "Hh" in
             inversion Hf as [|? ? Hh ?]; subst; clear Hf;
             apply isStringProvided_true in Hh
         end.
  simpl. now rewrite Hh, Hh0, Hh1, Hh2, Hh3.
Qed.

Lemma provided_is_string (v : jsvalue) :
  ~ Spec.absent_or_empty v -> exists s, v = Some s.
Proof.
  destruct v as [s|]; [now exists s|]. intros Hn. exfalso. apply Hn. now left.
Qed.

Lemma all_present_newPassword (e : endpoint) (b : Body) :
  Spec.all_present e b -> exists s, newPassword b = Some s.
Proof.
  unfold Spec.all_present. rewrite Forall_forall. intros Hall.
  apply provided_is_string. apply (Hall newPassword).
  destruct e; simpl; tauto.
Qed.

(** ** Request validation *)

Lemma checkParameters_rejects `{Utilities} (e : endpoint) (rnd : Entropy)
  (p : Pool) (b : Body) :
  Exists (fun field => Spec.absent_or_empty (field b)) (Spec.required e) ->
  handle e rnd p b = (Sent (error 400 (Route.missing_message e)), p).
Proof.
  intros Hex. apply Exists_exists in Hex as (field & Hin & Habs).
  apply isStringProvided_false in Habs.
  destruct e; simpl in Hin; unfold handle, router;
    [unfold ChangePassword.changePasswordRouter
    |unfold ForgotPassword.forgotPasswordRouter];
    rewrite dispatch_validator;
    [unfold ChangePassword.checkParameters
    |unfold ForgotPassword.checkParameters]; simpl;
    repeat (destruct Hin as [<- | Hin]; [rewrite Habs|]);
    try contradiction;
    rewrite ?andb_false_r; reflexivity.
Qed.

(** C6. On either endpoint, a request in which one of the fields required
    by that variant is absent or empty is answered 400 with the variant's
    missing-parameter message, and the pool is left exactly as it was: no
    statement is sent. *)
Theorem missing_parameter_rejected `{Utilities} (e : endpoint) (rnd : Entropy)
  (p : Pool) (b : Body) :
  Exists (fun field => Spec.absent_or_empty (field b)) (Spec.required e) ->
  handle e rnd p b = (Sent (error 400 (Route.missing_message e)), p) /\
  statements_between p (snd (handle e rnd p b)) = [].
Proof.
  intros Hex. rewrite (checkParameters_rejects e rnd p b Hex). split; auto.
  unfold statements_between. simpl. apply skipn_all.
Qed.

Lemma missing_parameter_rejected_witness :
  handle (H := Scenario.utilities) ForgotPasswordEndpoint Scenario.entropy
    Scenario.store
    {| username := Some (lit "alice"); email := Some (lit "a@x.com");
       phone := Some []; password := None;
       newPassword := Some (lit "Abcde1!2");
       confirmNewPassword := Some (lit "Abcde1!2") |}
  = (Sent (error 400 "Missing a parameter"), Scenario.store).
Proof.
  apply (missing_parameter_rejected (H := Scenario.utilities)
           ForgotPasswordEndpoint).
  simpl. right. right. left. right. reflexivity.
Defined.

Lemma loose_eqb_eq (a b : jsvalue) : loose_eqb a b = true <-> a = b.
Proof.
  destruct a as [x|], b as [y|]; simpl; try (split; congruence).
  rewrite jsstring_eqb_eq. split; congruence.
Qed.

Lemma test_anchored_Forall2 (pat : list atom) (s : jsstring) :
  test_anchored pat s = true <->
  Forall2 (fun a c => atom_matches a c = true) pat s.
Proof.
  revert s. induction pat as [|a pat IH]; intros [|c s]; simpl.
  - split; auto.
  - split; [discriminate|]. intros Hf. inversion Hf.
  - split; [discriminate|]. intros Hf. inversion Hf.
  - rewrite andb_true_iff, IH. split.
    + intros [Ha Hs]. now constructor.
    + intros Hf. inversion Hf; subst. now split.
Qed.

Lemma phone_spec (s : jsstring) :
  ForgotPassword.isValidPhone s = true <-> Spec.grouped_3_3_4 s.
Proof.
  unfold ForgotPassword.isValidPhone, ForgotPassword.phone_pattern.
  rewrite test_anchored_Forall2. unfold Spec.grouped_3_3_4. split.
  - intros Hf.
    repeat match goal with
           | Hf : Forall2 _ (_ :: _) _ |- _ => inversion Hf; subst; clear Hf
           | Hf : Forall2 _ [] _ |- _ => inversion Hf; subst; clear Hf
           end.
    cbv beta iota delta [atom_matches] in *.
    repeat match goal with
           | Hd : is_digit _ = true |- _ => apply is_digit_spec in Hd
           | Hd : N.eqb _ _ = true |- _ => apply N.eqb_eq in Hd; subst
           end.
    match goal with
    | |- exists a b c, [?c1; ?c2; ?c3; _; ?c4; ?c5; ?c6; _; ?c7; ?c8; ?c9; ?c10] = _ /\ _ =>
        exists [c1; c2; c3], [c4; c5; c6], [c7; c8; c9; c10]
    end.
    repeat split; auto.
  - intros (a & b & c & -> & Ha & Hb & Hc & Da & Db & Dc).
    destruct a as [|a1 [|a2 [|a3 [|? ?]]]]; try discriminate.
    destruct b as [|b1 [|b2 [|b3 [|? ?]]]]; try discriminate.
    destruct c as [|c1 [|c2 [|c3 [|c4 [|? ?]]]]]; try discriminate.
    repeat match goal with
           | Hf : Forall _ (_ :: _) |- _ => inversion Hf; subst; clear Hf
           end.
    simpl.
    repeat constructor; simpl;
      try (apply is_digit_spec; assumption); apply N.eqb_refl.
Qed.

Lemma validation_passes `{Utilities} (e : endpoint) (rnd : Entropy)
  (p : Pool) (b : Body) :
  Spec.valid e b ->
  handle e rnd p b
  = dispatch (store_handlers e rnd) p {| body := b; id := None |}.
Proof.
  intros (Hall & Hpol & Hrest). unfold handle, router, store_handlers.
  destruct e.
  - unfold ChangePassword.changePasswordRouter.
    rewrite dispatch_validator, (all_present_change b Hall).
    rewrite dispatch_validator. unfold ChangePassword.checkPassword.
    apply change_policy_spec in Hpol. simpl body. now rewrite Hpol.
  - destruct Hrest as (Heq & (em & Hem & Hat) & (ph & Hph & Hgr)).
    unfold ForgotPassword.forgotPasswordRouter.
    rewrite dispatch_validator, (all_present_forgot b Hall).
    rewrite dispatch_validator. unfold ForgotPassword.checkPassword.
    simpl body. destruct Hpol as (s & Hs & Hp). rewrite Hs.
    apply forgot_policy_spec in Hp. rewrite Hp.
    rewrite <- Hs, <- Heq.
    rewrite (proj2 (loose_eqb_eq _ _) eq_refl).
    rewrite dispatch_validator. unfold ForgotPassword.checkEmail.
    simpl body. rewrite Hem.
    unfold ForgotPassword.isValidEmail.
    rewrite (proj2 (includes_In _ _) Hat).
    rewrite dispatch_validator. unfold ForgotPassword.checkPhone.
    simpl body. rewrite Hph.
    now rewrite (proj2 (phone_spec _) Hgr).
Qed.

Lemma provided_all_present (e : endpoint) (b : Body) :
  forallb (fun field => isStringProvided (field b)) (Spec.required e) = true ->
  Spec.all_present e b.
Proof.
  unfold Spec.all_present. rewrite forallb_forall, Forall_forall.
  intros Hall field Hin. apply isStringProvided_true. now apply Hall.
Qed.

(** Every request is either turned away by a validator with a 400 and an
    untouched pool, or is valid and reaches the resolver. *)
Lemma validation_cases `{Utilities} (e : endpoint) (rnd : Entropy)
  (p : Pool) (b : Body) :
  (exists msg, handle e rnd p b = (Sent (error 400 msg), p)) \/
  Spec.valid e b.
Proof.
  destruct e.
  - destruct (forallb (fun field => isStringProvided (field b))
                (Spec.required ChangePasswordEndpoint)) eqn:Hreq.
    + destruct (ChangePassword.isValidNewPassword (newPassword b)) eqn:Hpol.
      * right. repeat split.
        -- now apply provided_all_present.
        -- now apply change_policy_spec.
      * left. eexists. unfold handle, router,
          ChangePassword.changePasswordRouter.
        rewrite dispatch_validator,
          (all_present_change b (provided_all_present _ _ Hreq)).
        rewrite dispatch_validator. unfold ChangePassword.checkPassword.
        simpl body. rewrite Hpol. reflexivity.
    + left. eexists. unfold handle, router,
        ChangePassword.changePasswordRouter.
      rewrite dispatch_validator. unfold ChangePassword.checkParameters.
      simpl in Hreq |- *. rewrite andb_true_r, !andb_assoc in Hreq.
      rewrite Hreq. reflexivity.
  - destruct (forallb (fun field => isStringProvided (field b))
                (Spec.required ForgotPasswordEndpoint)) eqn:Hreq.
    + pose proof (provided_all_present _ _ Hreq) as Hall.
      assert (Hstart : handle ForgotPasswordEndpoint rnd p b
                = dispatch (tl (ForgotPassword.forgotPasswordRouter rnd)) p
                    {| body := b; id := None |}).
      { unfold handle, router, ForgotPassword.forgotPasswordRouter.
        now rewrite dispatch_validator, (all_present_forgot b Hall). }
      rewrite Hstart. simpl tl.
      rewrite dispatch_validator. unfold ForgotPassword.checkPassword.
      simpl body.
      destruct (all_present_newPassword _ _ Hall) as (pw & Hpw).
      rewrite Hpw.
      destruct (ForgotPassword.isValidNewPassword pw) eqn:Hpol;
        [|left; eexists; reflexivity].
      rewrite <- Hpw.
      destruct (loose_eqb (newPassword b) (confirmNewPassword b)) eqn:Heq;
        [|left; eexists; reflexivity].
      rewrite dispatch_validator. unfold ForgotPassword.checkEmail.
      simpl body.
      assert (Hem : exists em, email b = Some em).
      { unfold Spec.all_present in Hall. rewrite Forall_forall in Hall.
        apply provided_is_string, (Hall email). simpl. tauto. }
      destruct Hem as (em & Hem). rewrite Hem.
      destruct (ForgotPassword.isValidEmail em) eqn:Hat;
        [|left; eexists; reflexivity].
      rewrite dispatch_validator. unfold ForgotPassword.checkPhone.
      simpl body.
      assert (Hph : exists ph, phone b = Some ph).
      { unfold Spec.all_present in Hall. rewrite Forall_forall in Hall.
        apply provided_is_string, (Hall phone). simpl. tauto. }
      destruct Hph as (ph & Hph). rewrite Hph.
      destruct (ForgotPassword.isValidPhone ph) eqn:Hgr;
        [|left; eexists; reflexivity].
      right. repeat split.
      * exact Hall.
      * rewrite Hpw. now apply forgot_policy_value.
      * now apply loose_eqb_eq.
      * exists em. split; auto. now apply includes_In.
      * exists ph. split; auto. now apply phone_spec.
    + left. eexists. unfold handle, router,
        ForgotPassword.forgotPasswordRouter.
      rewrite dispatch_validator. unfold ForgotPassword.checkParameters.
      simpl in Hreq |- *.
      rewrite andb_true_r in Hreq.
      destruct (isStringProvided (username b)),
               (isStringProvided (email b)),
               (isStringProvided (phone b)),
               (isStringProvided (newPassword b)),
               (isStringProvided (confirmNewPassword b));
        try discriminate; reflexivity.
Qed.

Lemma invalid_password_rejected `{Utilities} (e : endpoint) (rnd : Entropy)
  (p : Pool) (b : Body) :
  Spec.all_present e b ->
  ~ Spec.satisfies_policy (newPassword b) ->
  handle e rnd p b = (Sent (error 400 (Route.invalid_password_message e)), p).
Proof.
  intros Hall Hpol. unfold handle, router. destruct e.
  - unfold ChangePassword.changePasswordRouter.
    rewrite dispatch_validator, (all_present_change b Hall).
    rewrite dispatch_validator. unfold ChangePassword.checkPassword.
    simpl body.
    destruct (ChangePassword.isValidNewPassword (newPassword b)) eqn:Hv;
      [|reflexivity].
    now apply change_policy_spec in Hv.
  - unfold ForgotPassword.forgotPasswordRouter.
    rewrite dispatch_validator, (all_present_forgot b Hall).
    rewrite dispatch_validator. unfold ForgotPassword.checkPassword.
    simpl body.
    destruct (all_present_newPassword _ _ Hall) as (pw & Hpw). rewrite Hpw.
    destruct (ForgotPassword.isValidNewPassword pw) eqn:Hv; [|reflexivity].
    apply forgot_policy_value in Hv. rewrite Hpw in Hpol. contradiction.
Qed.

Lemma all_present_cases (e : endpoint) (b : Body) :
  Spec.all_present e b \/
  Exists (fun field => Spec.absent_or_empty (field b)) (Spec.required e).
Proof.
  unfold Spec.all_present.
  induction (Spec.required e) as [|field fields IH].
  - left. constructor.
  - destruct (isStringProvided (field b)) eqn:Hf.
    + destruct IH as [IH | IH].
      * left. constructor; auto. now apply isStringProvided_true.
      * right. now apply Exists_cons_tl.
    + right. apply Exists_cons_hd. now apply isStringProvided_false.
Qed.

(** C4. [isValidNewPassword] accepts exactly the strings of 8 to 24 code
    units that contain an uppercase letter, a lowercase letter, a digit
    and one of the characters [!@#$%^&*()_+=-]; this holds for the
    predicate of either router.  On either endpoint a request whose
    [newPassword] does not satisfy the policy is answered 400 (with the
    missing-parameter or the invalid-password message) and the pool is
    left exactly as it was. *)
Theorem password_policy `{Utilities} :
  (forall s, ForgotPassword.isValidNewPassword s = true <-> Spec.policy s) /\
  (forall v, ChangePassword.isValidNewPassword v = true
             <-> Spec.satisfies_policy v) /\
  (forall e rnd p b,
      ~ Spec.satisfies_policy (newPassword b) ->
      exists resp,
        handle e rnd p b = (Sent resp, p) /\
        status resp = 400%Z /\ resetToken resp = None /\
        (message resp = Route.missing_message e \/
         message resp = Route.invalid_password_message e)).
Proof.
  split; [exact forgot_policy_spec|]. split; [exact change_policy_spec|].
  intros e rnd p b Hpol.
  destruct (all_present_cases e b) as [Hall | Hmiss].
  - exists (error 400 (Route.invalid_password_message e)).
    rewrite (invalid_password_rejected e rnd p b Hall Hpol).
    repeat split. now right.
  - exists (error 400 (Route.missing_message e)).
    rewrite (checkParameters_rejects e rnd p b Hmiss).
    repeat split. now left.
Qed.

Lemma short_password_fails_policy :
  ~ Spec.satisfies_policy (Some (lit "short1!")).
Proof.
  intros Hp. apply forgot_policy_value in Hp. discriminate Hp.
Qed.

(** Scenario B of the specification. *)
Lemma password_policy_witness :
  exists resp,
    handle (H := Scenario.utilities) ForgotPasswordEndpoint Scenario.entropy
      Scenario.store
      (Scenario.forgot "alice" "a@x.com" "123-456-7890" "short1!" "short1!")
    = (Sent resp, Scenario.store) /\
    status resp = 400%Z /\ resetToken resp = None /\
    (message resp = Route.missing_message ForgotPasswordEndpoint \/
     message resp = Route.invalid_password_message ForgotPasswordEndpoint).
Proof.
  apply (proj2 (proj2 (password_policy (H := Scenario.utilities)))).
  exact short_password_fails_policy.
Defined.

(** C1, as the code has it.  Take a request with every required field
    present and [newPassword] different from [confirmNewPassword].  If
    [newPassword] fails the policy, either endpoint answers 400 with its
    invalid-password message: the policy is checked before the
    confirmation.  If [newPassword] satisfies the policy, the
    forgot-password endpoint answers 400 with the password-mismatch
    message.  In both cases the pool is left exactly as it was. *)
Theorem mismatch_rejected `{Utilities} (e : endpoint) (rnd : Entropy)
  (p : Pool) (b : Body) :
  Spec.all_present e b ->
  newPassword b <> confirmNewPassword b ->
  (~ Spec.satisfies_policy (newPassword b) ->
   handle e rnd p b
   = (Sent (error 400 (Route.invalid_password_message e)), p)) /\
  (Spec.satisfies_policy (newPassword b) ->
   e = ForgotPasswordEndpoint ->
   handle e rnd p b = (Sent (error 400 ForgotPassword.msg_mismatch), p)).
Proof.
  intros Hall Hneq. split.
  - now apply invalid_password_rejected.
  - intros (pw & Hpw & Hpol) ->. unfold handle, router,
      ForgotPassword.forgotPasswordRouter.
    rewrite dispatch_validator, (all_present_forgot b Hall).
    rewrite dispatch_validator. unfold ForgotPassword.checkPassword.
    simpl body. rewrite Hpw.
    rewrite (proj2 (forgot_policy_spec pw) Hpol). rewrite <- Hpw.
    destruct (loose_eqb (newPassword b) (confirmNewPassword b)) eqn:Heq;
      [|reflexivity].
    now apply loose_eqb_eq in Heq.
Qed.

Lemma mismatch_rejected_witness :
  handle (H := Scenario.utilities) ForgotPasswordEndpoint Scenario.entropy
    Scenario.store
    (Scenario.forgot "alice" "a@x.com" "123-456-7890" "Abcde1!2" "Abcde1!3")
  = (Sent (error 400 "The passwords do not match"), Scenario.store).
Proof.
  apply (mismatch_rejected (H := Scenario.utilities) ForgotPasswordEndpoint).
  - apply provided_all_present. reflexivity.
  - discriminate.
  - apply forgot_policy_value. reflexivity.
  - reflexivity.
Defined.

(** C1, as stated, fails on both routes.  On forgot-password a
    mismatching request whose new password also breaks the policy gets
    the invalid-password message, not the mismatch one.  On
    change-password the confirmation is never compared: a mismatching
    request for an existing user is answered 200 with a token and bob's
    credential is replaced. *)
Lemma mismatch_rejected_counterexample :
  fst (handle (H := Scenario.utilities) ForgotPasswordEndpoint
         Scenario.entropy Scenario.store
         (Scenario.forgot "alice" "a@x.com" "123-456-7890" "short1!" "other"))
  = Sent (error 400 "Invalid new password - please refer to documentation")
  /\
  handle (H := Scenario.utilities) ChangePasswordEndpoint Scenario.entropy
    Scenario.store (Scenario.change "bob" "anything" "Valid1!pw" "Other1!pw")
  = (Sent {| status := 200; message := "Password updated successfully";
             resetToken := Some (lit "jwt." ++ [2%N] ++ lit "15m") |},
     {| Account := Account Scenario.store;
        Account_Credential :=
          [ Scenario.credential 1;
            {| cred_account_id := 2;
               salted_hash := lit "Valid1!pw" ++ List.repeat 7%N 32;
               salt := List.repeat 7%N 32 |};
            Scenario.credential 0 ];
        failures := [];
        issued :=
          [ (SelectByUsername (Some (lit "bob")), Resolved [2%Z]);
            (UpdateCredential (lit "Valid1!pw" ++ List.repeat 7%N 32)
               (List.repeat 7%N 32) 2, Resolved []) ] |}).
Proof. split; vm_compute; reflexivity. Qed.

(** ** The pool *)

Lemma pool_query_issued (p p1 : Pool) (q : statement) (res : query_result) :
  pool_query p q = (res, p1) -> issued p1 = issued p ++ [(q, res)].
Proof. unfold pool_query. intros [= <- <-]. reflexivity. Qed.

Lemma pool_query_Account (p p1 : Pool) (q : statement) (res : query_result) :
  pool_query p q = (res, p1) -> Account p1 = Account p.
Proof. unfold pool_query. intros [= <- <-]. reflexivity. Qed.

Lemma pool_query_failures (p p1 : Pool) (q : statement) (res : query_result) :
  pool_query p q = (res, p1) -> failures p1 = tl (failures p).
Proof. unfold pool_query. intros [= <- <-]. reflexivity. Qed.

Lemma pool_query_result (p p1 : Pool) (q : statement) (res : query_result) :
  pool_query p q = (res, p1) ->
  res = if hd false (failures p) then Rejected else Resolved (rows_of p q).
Proof. unfold pool_query. intros [= <- <-]. reflexivity. Qed.

Lemma pool_query_credentials (p p1 : Pool) (q : statement)
  (res : query_result) :
  pool_query p q = (res, p1) ->
  Account_Credential p1 =
  match res with
  | Rejected => Account_Credential p
  | Resolved _ => credentials_after p q
  end.
Proof.
  unfold pool_query. intros [= <- <-]. simpl.
  now destruct (hd false (failures p)).
Qed.

Lemma lookup_keeps_credentials (e : endpoint) (b : Body) (p p1 : Pool)
  (res : query_result) :
  pool_query p (Route.lookup e b) = (res, p1) ->
  Account_Credential p1 = Account_Credential p.
Proof.
  intros Hq. rewrite (pool_query_credentials _ _ _ _ Hq).
  destruct res, e; reflexivity.
Qed.

Lemma statements_between_app (p p' : Pool) (l : list (statement * query_result)) :
  issued p' = issued p ++ l -> statements_between p p' = l.
Proof.
  unfold statements_between. intros ->.
  rewrite skipn_app, skipn_all, Nat.sub_diag. reflexivity.
Qed.

Lemma statements_between_refl (p : Pool) : statements_between p p = [].
Proof. apply statements_between_app. now rewrite app_nil_r. Qed.

(** ** From the handlers to the runs *)

Lemma store_handlers_run `{Utilities} (e : endpoint) (rnd : Entropy)
  (p : Pool) (b : Body) :
  dispatch (store_handlers e rnd) p {| body := b; id := None |} =
  match pool_query p (Route.lookup e b) with
  | (Rejected, p1) => (Sent (error 500 (Route.lookup_failed_message e)), p1)
  | (Resolved [], p1) =>
      (Sent (error (Route.not_found_status e) (Route.not_found_message e)), p1)
  | (Resolved (i :: _), p1) =>
      if Z.eqb i 0 then (Sent (error 500 (Route.no_id_message e)), p1)
      else
        match pool_query p1 (Route.rotation rnd b i) with
        | (Resolved _, p2) => (Sent (Route.after_update e i), p2)
        | (Rejected, p2) =>
            (Sent (error 500 (Route.update_failed_message e)), p2)
        end
  end.
Proof.
  destruct e; unfold store_handlers, dispatch.
  - unfold ChangePassword.resolveAccount. cbv beta. simpl body.
    change (SelectByUsername (username b))
      with (Route.lookup ChangePasswordEndpoint b).
    destruct (pool_query p (Route.lookup ChangePasswordEndpoint b))
      as [[[|i rows]|] p1]; try reflexivity.
    unfold ChangePassword.rotateCredential. simpl.
    destruct (Z.eqb i 0); try reflexivity.
    unfold pool_query, Route.after_update. simpl.
    destruct (hd false (failures p1)); [reflexivity|].
    now destruct (sign i key_secret "15m").
  - unfold ForgotPassword.resolveAccount. cbv beta. simpl body.
    change (SelectByIdentity (username b) (email b) (phone b))
      with (Route.lookup ForgotPasswordEndpoint b).
    destruct (pool_query p (Route.lookup ForgotPasswordEndpoint b))
      as [[[|i rows]|] p1]; try reflexivity.
    unfold ForgotPassword.rotateCredential. simpl.
    destruct (Z.eqb i 0); try reflexivity.
    unfold pool_query, Route.after_update. simpl.
    destruct (hd false (failures p1)); [reflexivity|].
    now destruct (sign i key_secret "15m").
Qed.

Lemma store_handlers_log `{Utilities} (e : endpoint) (rnd : Entropy)
  (p : Pool) (b : Body) :
  snd (dispatch (store_handlers e rnd) p {| body := b; id := None |}) <> p.
Proof.
  rewrite store_handlers_run. intros Heq.
  apply (f_equal (fun x => List.length (issued x))) in Heq. revert Heq.
  destruct (pool_query p (Route.lookup e b)) as [[[|i rows]|] p1] eqn:Hq;
    apply pool_query_issued in Hq;
    try (simpl; rewrite Hq, length_app; simpl; lia).
  destruct (Z.eqb i 0); [simpl; rewrite Hq, length_app; simpl; lia|].
  destruct (pool_query p1 (Route.rotation rnd b i)) as [[rows'|] p2] eqn:Hu;
    apply pool_query_issued in Hu;
    simpl; rewrite Hu, Hq, !length_app; simpl; lia.
Qed.

(** Every request takes one of the six runs. *)
Lemma handle_run `{Utilities} (e : endpoint) (rnd : Entropy)
  (p : Pool) (b : Body) :
  run e rnd p b (fst (handle e rnd p b)) (snd (handle e rnd p b))
    (statements_between p (snd (handle e rnd p b))).
Proof.
  destruct (validation_cases e rnd p b) as [(msg & Hh) | Hv].
  - assert (Hn : ~ Spec.valid e b).
    { intros Hv. apply (store_handlers_log e rnd p b).
      now rewrite <- (validation_passes e rnd p b Hv), Hh. }
    rewrite Hh. simpl. rewrite statements_between_refl.
    now apply run_invalid.
  - rewrite (validation_passes e rnd p b Hv), store_handlers_run.
    destruct (pool_query p (Route.lookup e b)) as [[[|i rows]|] p1] eqn:Hq.
    + simpl. rewrite (statements_between_app _ _ _ (pool_query_issued _ _ _ _ Hq)).
      now apply run_not_found.
    + destruct (Z.eqb_spec i 0) as [-> | Hi].
      * simpl.
        rewrite (statements_between_app _ _ _ (pool_query_issued _ _ _ _ Hq)).
        now apply run_no_id.
      * destruct (pool_query p1 (Route.rotation rnd b i))
          as [[rows'|] p2] eqn:Hu.
        -- pose proof (pool_query_result _ _ _ _ Hu) as Hr.
           assert (rows' = []) as ->.
           { destruct (hd false (failures p1)); [discriminate|].
             now injection Hr. }
           simpl. rewrite (statements_between_app p p2
             [(Route.lookup e b, Resolved (i :: rows));
              (Route.rotation rnd b i, Resolved [])]).
           ++ unfold Route.after_update.
              destruct (sign i key_secret "15m") as [tok|] eqn:Hsign.
              ** now apply run_updated with (p1 := p1).
              ** now apply run_sign_failed with (p1 := p1).
           ++ rewrite (pool_query_issued _ _ _ _ Hu),
                (pool_query_issued _ _ _ _ Hq), <- app_assoc. reflexivity.
        -- simpl. rewrite (statements_between_app p p2
             [(Route.lookup e b, Resolved (i :: rows));
              (Route.rotation rnd b i, Rejected)]).
           ++ now apply run_update_failed with (p1 := p1).
           ++ rewrite (pool_query_issued _ _ _ _ Hu),
                (pool_query_issued _ _ _ _ Hq), <- app_assoc. reflexivity.
    + simpl. rewrite (statements_between_app _ _ _ (pool_query_issued _ _ _ _ Hq)).
      now apply run_lookup_failed.
Qed.

(** ** Identity resolution *)

Lemma filter_none {A : Type} (f : A -> bool) (l : list A) :
  (forall x, In x l -> f x = false) -> List.filter f l = [].
Proof.
  induction l as [|x l IH]; intros Hf; simpl; auto.
  rewrite (Hf x (or_introl eq_refl)). apply IH.
  intros y Hy. apply Hf. now right.
Qed.

Lemma filter_some {A : Type} (f : A -> bool) (l : list A) (x : A) :
  In x l -> f x = true -> List.filter f l <> [].
Proof.
  intros Hin Hfx Hnil.
  assert (Hx : In x (List.filter f l)) by (apply filter_In; auto).
  rewrite Hnil in Hx. contradiction.
Qed.

Lemma where_username_spec (u : jsvalue) (r : AccountRow) :
  where_username u r = true <-> u = Some (acc_username r).
Proof.
  unfold where_username, column_eqb. destruct u as [s|]; [|split; discriminate].
  rewrite jsstring_eqb_eq. split; congruence.
Qed.

Lemma where_identity_spec (u e ph : jsstring) (r : AccountRow) :
  where_identity (Some u) (Some e) (Some ph) r = true
  <-> Spec.matches_identity u e ph r.
Proof.
  unfold where_identity, column_eqb, Spec.matches_identity.
  rewrite !andb_true_iff, !jsstring_eqb_eq. tauto.
Qed.

(** A valid request whose lookup selects no row: the resolver answers and
    the rotator is never reached. *)
Lemma no_match_run `{Utilities} (e : endpoint) (rnd : Entropy)
  (p : Pool) (b : Body) :
  Spec.valid e b ->
  rows_of p (Route.lookup e b) = [] ->
  handle e rnd p b =
  (Sent (if hd false (failures p)
         then error 500 (Route.lookup_failed_message e)
         else error (Route.not_found_status e) (Route.not_found_message e)),
   snd (pool_query p (Route.lookup e b))).
Proof.
  intros Hv Hrows. rewrite (validation_passes e rnd p b Hv), store_handlers_run.
  unfold pool_query. rewrite Hrows.
  now destruct (hd false (failures p)).
Qed.

Lemma no_match_credentials `{Utilities} (e : endpoint) (rnd : Entropy)
  (p : Pool) (b : Body) :
  Spec.valid e b ->
  rows_of p (Route.lookup e b) = [] ->
  Account_Credential (snd (handle e rnd p b)) = Account_Credential p.
Proof.
  intros Hv Hrows. rewrite (no_match_run e rnd p b Hv Hrows).
  unfold pool_query. simpl. destruct (hd false (failures p)); auto.
  now destruct e.
Qed.

Lemma no_match_served `{Utilities} (e : endpoint) (rnd : Entropy)
  (p : Pool) (b : Body) :
  Spec.valid e b ->
  rows_of p (Route.lookup e b) = [] ->
  Spec.served p ->
  fst (handle e rnd p b)
  = Sent (error (Route.not_found_status e) (Route.not_found_message e)) /\
  statements_between p (snd (handle e rnd p b))
  = [(Route.lookup e b, Resolved [])].
Proof.
  intros Hv Hrows Hs. rewrite (no_match_run e rnd p b Hv Hrows).
  unfold Spec.served in Hs. rewrite Hs. split; auto.
  apply statements_between_app. unfold pool_query. simpl.
  now rewrite Hs, Hrows.
Qed.



(** C3, as the code has it.  A change-password request that passes field
    and policy validation and whose username equals that of no account
    never changes a credential; when the lookup statement is served, the
    answer is 400 with the user-does-not-exist message, and the lookup is
    the only statement issued. *)
Theorem change_password_unknown_user `{Utilities} (rnd : Entropy)
  (p : Pool) (b : Body) :
  Spec.valid ChangePasswordEndpoint b ->
  (forall r, In r (Account p) -> username b <> Some (acc_username r)) ->
  Account_Credential (snd (handle ChangePasswordEndpoint rnd p b))
  = Account_Credential p /\
  (Spec.served p ->
   fst (handle ChangePasswordEndpoint rnd p b)
   = Sent (error 400
       "User does not exist within the database with the provided inputs") /\
   statements_between p (snd (handle ChangePasswordEndpoint rnd p b))
   = [(SelectByUsername (username b), Resolved [])]).
Proof.
  intros Hv Hnone.
  assert (Hrows : rows_of p (Route.lookup ChangePasswordEndpoint b) = []).
  { simpl. rewrite filter_none; auto. intros r Hr.
    destruct (where_username (username b) r) eqn:Hw; auto.
    apply where_username_spec in Hw. now apply Hnone in Hr. }
  split.
  - now apply no_match_credentials.
  - intros Hs.
    exact (no_match_served ChangePasswordEndpoint rnd p b Hv Hrows Hs).
Qed.

Lemma change_password_unknown_user_witness :
  Account_Credential
    (snd (handle (H := Scenario.utilities) ChangePasswordEndpoint
            Scenario.entropy Scenario.store
            (Scenario.change "carol" "anything" "Valid1!pw" "Valid1!pw")))
  = Account_Credential Scenario.store /\
  fst (handle (H := Scenario.utilities) ChangePasswordEndpoint
         Scenario.entropy Scenario.store
         (Scenario.change "carol" "anything" "Valid1!pw" "Valid1!pw"))
  = Sent (error 400
      "User does not exist within the database with the provided inputs").
Proof.
  destruct (change_password_unknown_user (H := Scenario.utilities)
              Scenario.entropy Scenario.store
              (Scenario.change "carol" "anything" "Valid1!pw" "Valid1!pw"))
    as [Hcred Hserved].
  - repeat split.
    + apply provided_all_present. reflexivity.
    + apply change_policy_spec. reflexivity.
  - simpl. intros r [<- | [<- | [<- | []]]]; discriminate.
  - split; [exact Hcred|]. apply Hserved. reflexivity.
Defined.

(** C3, as stated, fails: for a user that does not exist the
    change-password route answers 400, not 404. *)
Lemma change_password_unknown_user_counterexample :
  exists resp,
    fst (handle (H := Scenario.utilities) ChangePasswordEndpoint
           Scenario.entropy Scenario.store
           (Scenario.change "carol" "anything" "Valid1!pw" "Valid1!pw"))
    = Sent resp /\
    status resp = 400%Z /\ status resp <> 404%Z.
Proof.
  eexists. split; [vm_compute; reflexivity|]. simpl. split; [reflexivity|lia].
Qed.

(** A valid request whose lookup is served and selects at least one row. *)
Lemma resolved_run `{Utilities} (e : endpoint) (rnd : Entropy)
  (p : Pool) (b : Body) (i : Z) (rows : list Z) :
  Spec.valid e b ->
  Spec.served p ->
  rows_of p (Route.lookup e b) = i :: rows ->
  pool_query p (Route.lookup e b)
  = (Resolved (i :: rows), snd (pool_query p (Route.lookup e b))) /\
  handle e rnd p b =
  if Z.eqb i 0
  then (Sent (error 500 (Route.no_id_message e)),
        snd (pool_query p (Route.lookup e b)))
  else
    match pool_query (snd (pool_query p (Route.lookup e b)))
            (Route.rotation rnd b i) with
    | (Resolved _, p2) => (Sent (Route.after_update e i), p2)
    | (Rejected, p2) => (Sent (error 500 (Route.update_failed_message e)), p2)
    end.
Proof.
  intros Hv Hs Hrows. unfold Spec.served in Hs.
  assert (Hq : pool_query p (Route.lookup e b)
               = (Resolved (i :: rows), snd (pool_query p (Route.lookup e b)))).
  { unfold pool_query. simpl. now rewrite Hs, Hrows. }
  split; [exact Hq|].
  rewrite (validation_passes e rnd p b Hv), store_handlers_run.
  now rewrite Hq.
Qed.

Lemma first_of_filter {A : Type} (f : A -> bool) (l : list A) (x : A)
  (rest : list A) :
  List.filter f l = x :: rest ->
  exists before after,
    l = before ++ x :: after /\
    (forall y, In y before -> f y = false) /\
    f x = true.
Proof.
  induction l as [|y l IH]; simpl; [discriminate|].
  destruct (f y) eqn:Hy.
  - intros [= -> _]. exists [], l. repeat split; auto. intros z [].
  - intros Hf. destruct (IH Hf) as (before & after & -> & Hb & Hx).
    exists (y :: before), after. repeat split; auto.
    intros z [<- | Hz]; auto.
Qed.

(** The row behind the first identifier a forgot-password lookup selects. *)
Lemma first_selected_identity (p : Pool) (b : Body) (u e ph : jsstring)
  (i : Z) (rows : list Z) :
  username b = Some u -> email b = Some e -> phone b = Some ph ->
  rows_of p (Route.lookup ForgotPasswordEndpoint b) = i :: rows ->
  exists r before after,
    Account p = before ++ r :: after /\
    (forall r', In r' before -> ~ Spec.matches_identity u e ph r') /\
    Spec.matches_identity u e ph r /\
    account_id r = i.
Proof.
  intros Hu He Hph. simpl. rewrite Hu, He, Hph. intros Hrows.
  destruct (List.filter (where_identity (Some u) (Some e) (Some ph))
              (Account p)) as [|r rest] eqn:Hf; [discriminate Hrows|].
  injection Hrows as Hi _.
  destruct (first_of_filter _ _ _ _ Hf) as (before & after & Hl & Hb & Hr).
  exists r, before, after.
  split; [exact Hl|]. split; [|split; [now apply where_identity_spec|exact Hi]].
  intros r' Hr' Hm. apply where_identity_spec in Hm.
  rewrite (Hb r' Hr') in Hm. discriminate Hm.
Qed.

Lemma served_lookup (e : endpoint) (p p1 : Pool) (b : Body)
  (res : query_result) :
  pool_query p (Route.lookup e b) = (res, p1) ->
  forall i rows, res = Resolved (i :: rows) ->
  rows_of p (Route.lookup e b) = i :: rows.
Proof.
  intros Hq i rows ->. apply pool_query_result in Hq.
  destruct (hd false (failures p)); [discriminate Hq|]. now injection Hq.
Qed.

(** C7. A forgot-password request that passes all field and policy
    validation is resolved by the conjunction of three equalities:
    username, email and phone.  When no account row equals the request on
    all three, no credential changes and, the lookup being served, the
    answer is 404 with the lookup as the only statement issued.  When
    some row does and the lookup is served, the identity resolved is that
    of the first such row of the table: the lookup resolves to its
    identifier first, the answer is not 404, a non-zero identifier is the
    key of the update that follows, and a token in the answer is the
    signature of that identifier.  Whatever the pool does, an update is
    only ever keyed on the identifier of a row equal to the request on
    all three attributes. *)
Theorem forgot_password_identity `{Utilities} (rnd : Entropy)
  (p : Pool) (b : Body) (u e ph : jsstring) :
  Spec.valid ForgotPasswordEndpoint b ->
  username b = Some u -> email b = Some e -> phone b = Some ph ->
  ((forall r, In r (Account p) -> ~ Spec.matches_identity u e ph r) ->
   Account_Credential (snd (handle ForgotPasswordEndpoint rnd p b))
   = Account_Credential p /\
   (Spec.served p ->
    fst (handle ForgotPasswordEndpoint rnd p b)
    = Sent (error 404 "User does not exist within the Database") /\
    statements_between p (snd (handle ForgotPasswordEndpoint rnd p b))
    = [(SelectByIdentity (Some u) (Some e) (Some ph), Resolved [])])) /\
  ((exists r, In r (Account p) /\ Spec.matches_identity u e ph r) ->
   Spec.served p ->
   exists r before after rows resp,
     Account p = before ++ r :: after /\
     (forall r', In r' before -> ~ Spec.matches_identity u e ph r') /\
     Spec.matches_identity u e ph r /\
     nth_error
       (statements_between p (snd (handle ForgotPasswordEndpoint rnd p b))) 0
     = Some (SelectByIdentity (Some u) (Some e) (Some ph),
             Resolved (account_id r :: rows)) /\
     (account_id r <> 0%Z ->
      exists res,
        nth_error
          (statements_between p
             (snd (handle ForgotPasswordEndpoint rnd p b))) 1
        = Some (Route.rotation rnd b (account_id r), res)) /\
     fst (handle ForgotPasswordEndpoint rnd p b) = Sent resp /\
     status resp <> 404%Z /\
     (forall tok,
         resetToken resp = Some tok ->
         sign (account_id r) key_secret "15m" = Some tok)) /\
  (forall h s i res,
      In (UpdateCredential h s i, res)
         (statements_between p (snd (handle ForgotPasswordEndpoint rnd p b))) ->
      exists r,
        In r (Account p) /\ Spec.matches_identity u e ph r /\
        account_id r = i).
Proof.
  intros Hv Hu He Hph. split; [|split].
  - intros Hnone.
    assert (Hrows : rows_of p (Route.lookup ForgotPasswordEndpoint b) = []).
    { simpl. rewrite Hu, He, Hph, filter_none; auto. intros r Hr.
      destruct (where_identity (Some u) (Some e) (Some ph) r) eqn:Hw; auto.
      apply where_identity_spec in Hw. now apply Hnone in Hr. }
    split.
    + now apply no_match_credentials.
    + intros Hs.
      pose proof (no_match_served ForgotPasswordEndpoint rnd p b Hv Hrows Hs)
        as Hnm.
      simpl in Hnm. now rewrite Hu, He, Hph in Hnm.
  - intros (r0 & Hr0 & Hm0) Hs.
    destruct (rows_of p (Route.lookup ForgotPasswordEndpoint b))
      as [|i rows] eqn:Hrows.
    { exfalso. simpl in Hrows. rewrite Hu, He, Hph in Hrows.
      apply map_eq_nil in Hrows.
      apply (filter_some _ _ r0 Hr0
               (proj2 (where_identity_spec u e ph r0) Hm0)).
      exact Hrows. }
    destruct (first_selected_identity p b u e ph i rows Hu He Hph Hrows)
      as (r & before & after & Hl & Hb & Hm & Hi).
    destruct (resolved_run ForgotPasswordEndpoint rnd p b i rows Hv Hs Hrows)
      as [Hq _].
    assert (Hlookup : Route.lookup ForgotPasswordEndpoint b
                      = SelectByIdentity (Some u) (Some e) (Some ph))
      by (simpl; now rewrite Hu, He, Hph).
    pose proof (handle_run ForgotPasswordEndpoint rnd p b) as Hrun.
    destruct (handle ForgotPasswordEndpoint rnd p b) as [out p'].
    cbn [fst snd] in *.
    exists r, before, after, rows. rewrite <- Hlookup.
    inversion Hrun as [msg Hn | p1 _ Hq' | p1 _ Hq' | rows' p1 _ Hq'
                      | i' rows' p1 p2 tok _ Hq' Hi' Hup Hsign
                      | i' rows' p1 p2 _ Hq' Hi' Hup Hsign
                      | i' rows' p1 p2 _ Hq' Hi' Hup];
      try contradiction; rewrite Hq in Hq'; try discriminate Hq';
      injection Hq' as Hi0 Hrows0 Hp1; eexists;
      (split; [exact Hl|]); (split; [exact Hb|]); (split; [exact Hm|]);
      (split; [cbn [nth_error]; now rewrite Hi, Hi0, Hrows0|]);
      (split; [intros Hnz; try (rewrite Hi, Hi0; eexists; reflexivity);
               exfalso; apply Hnz; now rewrite Hi, Hi0|]);
      (split; [reflexivity|]); (split; [simpl; lia|]);
      simpl; try discriminate.
    intros tok' [= <-]. now rewrite Hi, Hi0.
  - intros h s i res Hin.
    pose proof (handle_run ForgotPasswordEndpoint rnd p b) as Hrun.
    destruct (handle ForgotPasswordEndpoint rnd p b) as [out p']. simpl in *.
    inversion Hrun as [msg Hn | p1 _ Hq' | p1 _ Hq' | rows' p1 _ Hq'
                      | i' rows' p1 p2 tok _ Hq' Hi' Hup Hsign
                      | i' rows' p1 p2 _ Hq' Hi' Hup Hsign
                      | i' rows' p1 p2 _ Hq' Hi' Hup];
      subst;
      match goal with
      | Hlog : _ = statements_between _ _ |- _ => rewrite <- Hlog in Hin
      end;
      repeat match goal with
             | Hx : In _ [] |- _ => destruct Hx
             | Hx : In _ (_ :: _) |- _ => destruct Hx as [Hx | Hx]
             end;
      try discriminate;
      injection Hin as _ _ <- _;
      destruct (first_selected_identity p b u e ph i' rows' Hu He Hph
                  (served_lookup _ _ _ _ _ Hq' _ _ eq_refl))
        as (r & before & after & Hl & _ & Hm & Hi);
      exists r; (split; [rewrite Hl; apply in_or_app; right; now left|]);
      split; assumption.
Qed.

Lemma forgot_password_identity_witness :
  Account_Credential
    (snd (handle (H := Scenario.utilities) ForgotPasswordEndpoint
            Scenario.entropy Scenario.store
            (Scenario.forgot "alice" "a@x.com" "123-456-7899"
               "Abcde1!2" "Abcde1!2")))
  = Account_Credential Scenario.store /\
  fst (handle (H := Scenario.utilities) ForgotPasswordEndpoint
         Scenario.entropy Scenario.store
         (Scenario.forgot "alice" "a@x.com" "123-456-7899"
            "Abcde1!2" "Abcde1!2"))
  = Sent (error 404 "User does not exist within the Database").
Proof.
  destruct (forgot_password_identity (H := Scenario.utilities)
              Scenario.entropy Scenario.store
              (Scenario.forgot "alice" "a@x.com" "123-456-7899"
                 "Abcde1!2" "Abcde1!2")
              (lit "alice") (lit "a@x.com") (lit "123-456-7899"))
    as [Hnone _]; try reflexivity.
  - repeat split.
    + apply provided_all_present. reflexivity.
    + apply forgot_policy_value. reflexivity.
    + eexists. split; [reflexivity|]. simpl. tauto.
    + eexists. split; [reflexivity|]. apply phone_spec. reflexivity.
  - destruct Hnone as [Hcred Hserved].
    + simpl. intros r [<- | [<- | [<- | []]]] (_ & _ & Hphone);
        discriminate Hphone.
    + split; [exact Hcred|]. apply Hserved. reflexivity.
Defined.

(** ** The falsy identifier *)

(** C10. On either endpoint, when a valid request's lookup is served and
    the first selected row carries the account identifier 0, the answer
    is 500 with the route's server-error message, the lookup is the only
    statement issued and no credential changes: the guard takes the
    number 0 for a missing identifier. *)
Theorem zero_id_is_server_error `{Utilities} (e : endpoint) (rnd : Entropy)
  (p : Pool) (b : Body) (rows : list Z) :
  Spec.valid e b ->
  Spec.served p ->
  rows_of p (Route.lookup e b) = 0%Z :: rows ->
  fst (handle e rnd p b) = Sent (error 500 (Route.no_id_message e)) /\
  statements_between p (snd (handle e rnd p b))
  = [(Route.lookup e b, Resolved (0%Z :: rows))] /\
  Account_Credential (snd (handle e rnd p b)) = Account_Credential p /\
  id_falsy (Some 0%Z) = id_falsy None.
Proof.
  intros Hv Hs Hrows.
  destruct (resolved_run e rnd p b 0%Z rows Hv Hs Hrows) as [Hq Hrun].
  rewrite Hrun. simpl. repeat split.
  - apply statements_between_app. exact (pool_query_issued _ _ _ _ Hq).
  - exact (lookup_keeps_credentials _ _ _ _ _ Hq).
Qed.

Lemma zero_id_is_server_error_witness :
  fst (handle (H := Scenario.utilities) ChangePasswordEndpoint
         Scenario.entropy Scenario.store
         (Scenario.change "zero" "anything" "Valid1!pw" "Valid1!pw"))
  = Sent (error 500 "Server error - contact support") /\
  Account_Credential
    (snd (handle (H := Scenario.utilities) ChangePasswordEndpoint
            Scenario.entropy Scenario.store
            (Scenario.change "zero" "anything" "Valid1!pw" "Valid1!pw")))
  = Account_Credential Scenario.store.
Proof.
  destruct (zero_id_is_server_error (H := Scenario.utilities)
              ChangePasswordEndpoint Scenario.entropy Scenario.store
              (Scenario.change "zero" "anything" "Valid1!pw" "Valid1!pw") [])
    as (Hout & _ & Hcred & _).
  - repeat split.
    + apply provided_all_present. reflexivity.
    + apply change_policy_spec. reflexivity.
  - reflexivity.
  - reflexivity.
  - split; assumption.
Defined.

(** ** The current password *)







(** ** Rotation and the token *)

Lemma lookup_is_no_update (e : endpoint) (b : Body) (h s : jsstring) (i : Z) :
  Route.lookup e b <> UpdateCredential h s i.
Proof. destruct e; discriminate. Qed.

Ltac log_cases :=
  repeat match goal with
         | Hin : In _ [] |- _ => destruct Hin
         | Hin : In _ (_ :: _) |- _ => destruct Hin as [Hin | Hin]
         | Heq : (Route.lookup _ _, _) = (UpdateCredential _ _ _, _) |- _ =>
             exfalso; apply (f_equal fst) in Heq;
             exact (lookup_is_no_update _ _ _ _ _ Heq)
         | Heq : (_, Resolved _) = (_, Rejected) |- _ => discriminate Heq
         | Heq : (_, Rejected) = (_, Resolved _) |- _ => discriminate Heq
         end.

(** A valid request on a pool that serves both statements, resolved to a
    non-zero identifier: the answer and all of the pool afterwards. *)
Lemma rotated_run `{Utilities} (e : endpoint) (rnd : Entropy)
  (p : Pool) (b : Body) (i : Z) (rows : list Z) :
  Spec.valid e b ->
  Spec.served_twice p ->
  rows_of p (Route.lookup e b) = i :: rows ->
  i <> 0%Z ->
  handle e rnd p b =
  (Sent (Route.after_update e i),
   {| Account := Account p;
      Account_Credential :=
        List.map (set_credential
                    (generateHash (newPassword b) (generateSalt 32 rnd))
                    (generateSalt 32 rnd) i)
          (Account_Credential p);
      failures := tl (tl (failures p));
      issued := issued p ++
                [(Route.lookup e b, Resolved (i :: rows));
                 (Route.rotation rnd b i, Resolved [])] |}).
Proof.
  intros Hv (Hs1 & Hs2) Hrows Hi.
  destruct (resolved_run e rnd p b i rows Hv Hs1 Hrows) as [_ Hrun].
  rewrite Hrun.
  destruct (Z.eqb_spec i 0) as [Hz | _]; [contradiction|].
  unfold Spec.served in Hs1.
  unfold pool_query. simpl. rewrite Hs1, Hs2, Hrows. simpl.
  rewrite <- app_assoc. simpl.
  now destruct e.
Qed.

Lemma sign_token `{Utilities} (i : Z) (secret : jsvalue) (ttl : string)
  (tok : jsstring) :
  sign i secret ttl = Some tok -> tok <> [].
Proof.
  unfold sign. destruct secret as [[|c k]|]; try discriminate.
  apply jwt_sign_token.
Qed.

(** C5, as the code has it.  On either endpoint the response carries a
    token exactly when the update statement was issued and resolved and
    signing the token then succeeded.  In that case the response is 200
    with the message "Password updated successfully" and the token is
    the signature, under the configured secret and with expiry "15m", of
    the identifier the lookup resolved and the update was keyed on; the
    token is not empty.  When the update resolved and signing threw, and
    when the update statement was rejected, the response is 500 and
    carries no token.  The update is issued, and resolves, for every
    valid request resolved to a non-zero identifier on a pool that serves
    both statements. *)
Theorem token_iff_update_succeeds `{Utilities} (e : endpoint) (rnd : Entropy)
  (p : Pool) (b : Body) :
  ((exists resp tok,
       fst (handle e rnd p b) = Sent resp /\ resetToken resp = Some tok) <->
   (exists h s i tok,
       In (UpdateCredential h s i, Resolved [])
          (statements_between p (snd (handle e rnd p b))) /\
       sign i key_secret "15m" = Some tok)) /\
  (forall h s i,
      In (UpdateCredential h s i, Resolved [])
         (statements_between p (snd (handle e rnd p b))) ->
      (exists rows,
          In (Route.lookup e b, Resolved (i :: rows))
             (statements_between p (snd (handle e rnd p b)))) /\
      (forall tok,
          sign i key_secret "15m" = Some tok ->
          fst (handle e rnd p b)
          = Sent {| status := 200; message := "Password updated successfully";
                    resetToken := Some tok |} /\
          tok <> []) /\
      (sign i key_secret "15m" = None ->
       fst (handle e rnd p b)
       = Sent (error 500 (Route.update_failed_message e)))) /\
  (forall h s i,
      In (UpdateCredential h s i, Rejected)
         (statements_between p (snd (handle e rnd p b))) ->
      fst (handle e rnd p b)
      = Sent (error 500 (Route.update_failed_message e)) /\
      resetToken (error 500 (Route.update_failed_message e)) = None) /\
  (forall i rows,
      Spec.valid e b ->
      Spec.served_twice p ->
      rows_of p (Route.lookup e b) = i :: rows ->
      i <> 0%Z ->
      In (Route.rotation rnd b i, Resolved [])
         (statements_between p (snd (handle e rnd p b)))).
Proof.
  rewrite <- and_assoc, <- and_assoc. split.
  2:{ intros i rows Hv Hs Hrows Hi.
      rewrite (rotated_run e rnd p b i rows Hv Hs Hrows Hi). cbn [snd].
      erewrite statements_between_app; [|reflexivity].
      right. left. reflexivity. }
  rewrite and_assoc.
  pose proof (handle_run e rnd p b) as Hrun.
  destruct (handle e rnd p b) as [out p']. cbn [fst snd] in *.
  inversion Hrun as [msg Hn | p1 Hv Hq | p1 Hv Hq | rows p1 Hv Hq
                    | i rows p1 p2 tok0 Hv Hq Hi Hu Hsign
                    | i rows p1 p2 Hv Hq Hi Hu Hsign
                    | i rows p1 p2 Hv Hq Hi Hu];
    subst; (split; [split|split]).
  all: try (intros (resp & tok & [= <-] & Htok); discriminate Htok).
  all: try (intros (h & s & j & tok & Hin & Hs); log_cases).
  all: try (intros h s j Hin; log_cases).
  - do 4 eexists. split; [right; left; reflexivity | exact Hsign].
  - do 2 eexists. split; reflexivity.
  - unfold Route.rotation in Hin. injection Hin as _ _ <-.
    split; [exists rows; now left|]. split.
    + intros tok Htok. rewrite Hsign in Htok. injection Htok as <-.
      split; [reflexivity|]. exact (sign_token _ _ _ _ Hsign).
    + intros Hnone. rewrite Hsign in Hnone. discriminate Hnone.
  - unfold Route.rotation in Hin. injection Hin as _ _ <-.
    rewrite Hsign in Hs. discriminate Hs.
  - unfold Route.rotation in Hin. injection Hin as _ _ <-.
    split; [exists rows; now left|]. split.
    + intros tok Htok. rewrite Hsign in Htok. discriminate Htok.
    + reflexivity.
  - split; reflexivity.
Qed.

(** Scenario A of the specification. *)
Lemma token_iff_update_succeeds_witness :
  fst (handle (H := Scenario.utilities) ForgotPasswordEndpoint
         Scenario.entropy Scenario.store Scenario.scenario_A)
  = Sent {| status := 200; message := "Password updated successfully";
            resetToken := Some (lit "jwt." ++ [1%N] ++ lit "15m") |} /\
  fst (handle (H := Scenario.utilities) ForgotPasswordEndpoint
         Scenario.entropy Scenario.store_update_fails Scenario.scenario_A)
  = Sent (error 500 "Unexpected issue on updating password in the database").
Proof.
  split.
  - destruct (proj1 (proj2 (token_iff_update_succeeds
                (H := Scenario.utilities) ForgotPasswordEndpoint
                Scenario.entropy Scenario.store Scenario.scenario_A))
                (lit "Abcde1!2" ++ List.repeat 7%N 32) (List.repeat 7%N 32)
                1%Z) as (_ & Hout & _).
    + vm_compute. right. left. reflexivity.
    + destruct (Hout (lit "jwt." ++ [1%N] ++ lit "15m") eq_refl)
        as [Hsent _].
      exact Hsent.
  - destruct (proj1 (proj2 (proj2 (token_iff_update_succeeds
                (H := Scenario.utilities) ForgotPasswordEndpoint
                Scenario.entropy Scenario.store_update_fails
                Scenario.scenario_A)))
                (lit "Abcde1!2" ++ List.repeat 7%N 32) (List.repeat 7%N 32)
                1%Z) as (Hout & _).
    + vm_compute. right. left. reflexivity.
    + exact Hout.
Defined.

(** C5, as stated, fails: with the signing secret unset the update
    statement resolves and alice's credential is replaced, yet the answer
    is 500 and carries no token. *)
Lemma token_iff_update_succeeds_counterexample :
  handle (H := Cases.utilities_without_secret) ForgotPasswordEndpoint
    Scenario.entropy Scenario.store Scenario.scenario_A
  = (Sent (error 500 "Unexpected issue on updating password in the database"),
     {| Account := Account Scenario.store;
        Account_Credential :=
          [ {| cred_account_id := 1;
               salted_hash := lit "Abcde1!2" ++ List.repeat 7%N 32;
               salt := List.repeat 7%N 32 |};
            Scenario.credential 2; Scenario.credential 0 ];
        failures := [];
        issued :=
          [ (SelectByIdentity (Some (lit "alice")) (Some (lit "a@x.com"))
               (Some (lit "123-456-7890")), Resolved [1%Z]);
            (UpdateCredential (lit "Abcde1!2" ++ List.repeat 7%N 32)
               (List.repeat 7%N 32) 1, Resolved []) ] |}).
Proof. vm_compute. reflexivity. Qed.

Lemma Forall2_map_self {A : Type} (R : A -> A -> Prop) (f : A -> A)
  (l : list A) :
  (forall x, R x (f x)) -> Forall2 R l (List.map f l).
Proof. intros HR. induction l; simpl; constructor; auto. Qed.

Lemma set_credential_frame (h s : jsstring) (i : Z) (c : CredentialRow) :
  cred_account_id (set_credential h s i c) = cred_account_id c /\
  ((cred_account_id c = i /\
    salted_hash (set_credential h s i c) = h /\
    salt (set_credential h s i c) = s) \/
   (cred_account_id c <> i /\ set_credential h s i c = c)).
Proof.
  unfold set_credential.
  destruct (Z.eqb_spec (cred_account_id c) i); simpl; auto.
Qed.

(** C9. On either endpoint every rotation is a full replacement.  A run
    answered 200 has had its update resolved.  A run whose update
    resolved issued exactly two statements: the lookup, and one update
    keyed on the identifier the lookup resolved, carrying the salt
    obtained from [generateSalt(32)] for this request and the hash of the
    new password under that salt; afterwards every credential row of that
    account has both fields replaced, every other row is what it was, and
    the account table is unchanged.  A run in which no update resolved
    changes no credential row. *)
Theorem rotation_is_full_replacement `{Utilities} (e : endpoint)
  (rnd : Entropy) (p : Pool) (b : Body) (resp : Response) :
  fst (handle e rnd p b) = Sent resp ->
  (status resp = 200%Z ->
   exists h s i,
     In (UpdateCredential h s i, Resolved [])
        (statements_between p (snd (handle e rnd p b)))) /\
  (forall h s i,
      In (UpdateCredential h s i, Resolved [])
         (statements_between p (snd (handle e rnd p b))) ->
      exists rows,
        h = generateHash (newPassword b) (generateSalt 32 rnd) /\
        s = generateSalt 32 rnd /\
        statements_between p (snd (handle e rnd p b))
        = [(Route.lookup e b, Resolved (i :: rows));
           (UpdateCredential
              (generateHash (newPassword b) (generateSalt 32 rnd))
              (generateSalt 32 rnd) i, Resolved [])] /\
        Account (snd (handle e rnd p b)) = Account p /\
        Forall2
          (fun old new =>
             cred_account_id new = cred_account_id old /\
             ((cred_account_id old = i /\
               salted_hash new
               = generateHash (newPassword b) (generateSalt 32 rnd) /\
               salt new = generateSalt 32 rnd) \/
              (cred_account_id old <> i /\ new = old)))
          (Account_Credential p)
          (Account_Credential (snd (handle e rnd p b)))) /\
  ((forall h s i,
       ~ In (UpdateCredential h s i, Resolved [])
            (statements_between p (snd (handle e rnd p b)))) ->
   Account_Credential (snd (handle e rnd p b)) = Account_Credential p).
Proof.
  pose proof (handle_run e rnd p b) as Hrun.
  destruct (handle e rnd p b) as [out p']. cbn [fst snd] in *.
  intros ->.
  assert (Hrot : forall i rows p1,
             pool_query p (Route.lookup e b) = (Resolved (i :: rows), p1) ->
             pool_query p1 (Route.rotation rnd b i) = (Resolved [], p') ->
             Account p' = Account p /\
             Forall2
               (fun old new =>
                  cred_account_id new = cred_account_id old /\
                  ((cred_account_id old = i /\
                    salted_hash new
                    = generateHash (newPassword b) (generateSalt 32 rnd) /\
                    salt new = generateSalt 32 rnd) \/
                   (cred_account_id old <> i /\ new = old)))
               (Account_Credential p) (Account_Credential p')).
  { intros i rows p1 Hq Hu. split.
    - rewrite (pool_query_Account _ _ _ _ Hu).
      exact (pool_query_Account _ _ _ _ Hq).
    - rewrite (pool_query_credentials _ _ _ _ Hu). simpl.
      rewrite (lookup_keeps_credentials _ _ _ _ _ Hq).
      apply Forall2_map_self. intros c. apply set_credential_frame. }
  inversion Hrun as [msg Hn | p1 Hv Hq | p1 Hv Hq | rows p1 Hv Hq
                    | i rows p1 p2 tok0 Hv Hq Hi Hu Hsign
                    | i rows p1 p2 Hv Hq Hi Hu Hsign
                    | i rows p1 p2 Hv Hq Hi Hu];
    subst; (split; [intros Hst|split; [intros h s j Hin|intros Hnone]]);
    try discriminate Hst;
    try (destruct e; discriminate Hst);
    try log_cases;
    try reflexivity;
    try exact (lookup_keeps_credentials _ _ _ _ _ Hq).
  - do 3 eexists. right. left. reflexivity.
  - unfold Route.rotation in Hin. injection Hin as <- <- <-.
    exists rows. split; [reflexivity|]. split; [reflexivity|].
    split; [reflexivity|]. exact (Hrot i rows p1 Hq Hu).
  - exfalso.
    apply (Hnone (generateHash (newPassword b) (generateSalt 32 rnd))
             (generateSalt 32 rnd) i).
    right. left. reflexivity.
  - unfold Route.rotation in Hin. injection Hin as <- <- <-.
    exists rows. split; [reflexivity|]. split; [reflexivity|].
    split; [reflexivity|]. exact (Hrot i rows p1 Hq Hu).
  - exfalso.
    apply (Hnone (generateHash (newPassword b) (generateSalt 32 rnd))
             (generateSalt 32 rnd) i).
    right. left. reflexivity.
  - rewrite (pool_query_credentials _ _ _ _ Hu).
    exact (lookup_keeps_credentials _ _ _ _ _ Hq).
Qed.

Lemma rotation_is_full_replacement_witness :
  exists h s i,
    In (UpdateCredential h s i, Resolved [])
       (statements_between Scenario.store
          (snd (handle (H := Scenario.utilities) ForgotPasswordEndpoint
                  Scenario.entropy Scenario.store Scenario.scenario_A))).
Proof.
  destruct (rotation_is_full_replacement (H := Scenario.utilities)
              ForgotPasswordEndpoint Scenario.entropy Scenario.store
              Scenario.scenario_A
              {| status := 200; message := "Password updated successfully";
                 resetToken := Some (lit "jwt." ++ [1%N] ++ lit "15m") |})
    as [Hok _].
  - vm_compute. reflexivity.
  - exact (Hok eq_refl).
Defined.

(** * Further properties of the two routes *)

(** ** Answers *)

(** X1. Either route answers every request: no handler throws and none
    leaves the request unanswered.  The status is 200, 400, 404 or 500,
    a 404 only comes from forgot-password, and a token is present exactly
    on a 200. *)
Theorem every_request_is_answered `{Utilities} (e : endpoint) (rnd : Entropy)
  (p : Pool) (b : Body) :
  exists resp,
    fst (handle e rnd p b) = Sent resp /\
    (status resp = 200%Z \/ status resp = 400%Z \/
     status resp = 404%Z \/ status resp = 500%Z) /\
    (status resp = 404%Z <->
     e = ForgotPasswordEndpoint /\ Spec.valid e b /\
     statements_between p (snd (handle e rnd p b))
     = [(Route.lookup e b, Resolved [])]) /\
    (status resp = 200%Z <-> resetToken resp <> None).
Proof.
  pose proof (handle_run e rnd p b) as Hrun.
  destruct (handle e rnd p b) as [out p']. simpl in *.
  inversion Hrun as [msg Hn | p1 Hv Hq | p1 Hv Hq | rows p1 Hv Hq
                    | i rows p1 p2 tok0 Hv Hq Hi Hu Hsign
                    | i rows p1 p2 Hv Hq Hi Hu Hsign
                    | i rows p1 p2 Hv Hq Hi Hu];
    subst; eexists; (split; [reflexivity|]); simpl.
  all: split; [try tauto; destruct e; simpl; tauto|].
  all: split;
    [split; [intros Hst; try discriminate Hst
            |intros (He & _ & Hlog); try discriminate Hlog]
    |split; [intros Hst; try discriminate Hst; try discriminate
            |intros Hne; try reflexivity; try (now contradiction Hne)]].
  - destruct e; [discriminate Hst|]. auto.
  - subst e. reflexivity.
  - destruct e; discriminate Hst.
Qed.

(** X2. When the lookup statement of a valid request is rejected, either
    route answers 500 with its lookup-failure message; the lookup is the
    only statement issued and no credential changes. *)
Theorem lookup_rejected `{Utilities} (e : endpoint) (rnd : Entropy)
  (p : Pool) (b : Body) :
  Spec.valid e b ->
  hd false (failures p) = true ->
  fst (handle e rnd p b) = Sent (error 500 (Route.lookup_failed_message e)) /\
  statements_between p (snd (handle e rnd p b))
  = [(Route.lookup e b, Rejected)] /\
  Account_Credential (snd (handle e rnd p b)) = Account_Credential p.
Proof.
  intros Hv Hf.
  assert (Hq : pool_query p (Route.lookup e b)
               = (Rejected, snd (pool_query p (Route.lookup e b)))).
  { unfold pool_query. simpl. now rewrite Hf. }
  rewrite (validation_passes e rnd p b Hv), store_handlers_run, Hq. simpl.
  repeat split.
  - apply statements_between_app. exact (pool_query_issued _ _ _ _ Hq).
  - now rewrite Hf.
Qed.

Lemma lookup_rejected_witness :
  fst (handle (H := Scenario.utilities) ForgotPasswordEndpoint
         Scenario.entropy Cases.store_lookup_fails Scenario.scenario_A)
  = Sent (error 500 "Unexpected issue on account retrieval in the database")
  /\
  Account_Credential
    (snd (handle (H := Scenario.utilities) ForgotPasswordEndpoint
            Scenario.entropy Cases.store_lookup_fails Scenario.scenario_A))
  = Account_Credential Cases.store_lookup_fails.
Proof.
  destruct (lookup_rejected (H := Scenario.utilities) ForgotPasswordEndpoint
              Scenario.entropy Cases.store_lookup_fails Scenario.scenario_A)
    as (Hout & _ & Hcred).
  - repeat split.
    + apply provided_all_present. reflexivity.
    + apply forgot_policy_value. reflexivity.
    + eexists. split; [reflexivity|]. simpl. tauto.
    + eexists. split; [reflexivity|]. apply phone_spec. reflexivity.
  - reflexivity.
  - split; assumption.
Defined.

(** ** Statements and tables *)

Lemma set_credential_id (h s : jsstring) (i : Z) (l : list CredentialRow) :
  List.map cred_account_id (List.map (set_credential h s i) l)
  = List.map cred_account_id l.
Proof.
  rewrite map_map. apply map_ext. intros c.
  apply (set_credential_frame h s i c).
Qed.

(** X3. No run of either route touches the account table, and none adds,
    removes or re-keys a credential row: the account identifiers of the
    credential table are the same, in the same order, afterwards. *)
Theorem tables_keep_their_rows `{Utilities} (e : endpoint) (rnd : Entropy)
  (p : Pool) (b : Body) :
  Account (snd (handle e rnd p b)) = Account p /\
  List.map cred_account_id (Account_Credential (snd (handle e rnd p b)))
  = List.map cred_account_id (Account_Credential p).
Proof.
  pose proof (handle_run e rnd p b) as Hrun.
  destruct (handle e rnd p b) as [out p']. simpl in *.
  inversion Hrun as [msg Hn | p1 Hv Hq | p1 Hv Hq | rows p1 Hv Hq
                    | i rows p1 p2 tok0 Hv Hq Hi Hu Hsign
                    | i rows p1 p2 Hv Hq Hi Hu Hsign
                    | i rows p1 p2 Hv Hq Hi Hu];
    subst; try (split; reflexivity);
    try (rewrite (lookup_keeps_credentials _ _ _ _ _ Hq),
           (pool_query_Account _ _ _ _ Hq); split; reflexivity).
  - rewrite (pool_query_Account _ _ _ _ Hu), (pool_query_Account _ _ _ _ Hq).
    rewrite (pool_query_credentials _ _ _ _ Hu). simpl.
    rewrite set_credential_id, (lookup_keeps_credentials _ _ _ _ _ Hq).
    split; reflexivity.
  - rewrite (pool_query_Account _ _ _ _ Hu), (pool_query_Account _ _ _ _ Hq).
    rewrite (pool_query_credentials _ _ _ _ Hu). simpl.
    rewrite set_credential_id, (lookup_keeps_credentials _ _ _ _ _ Hq).
    split; reflexivity.
  - rewrite (pool_query_Account _ _ _ _ Hu), (pool_query_Account _ _ _ _ Hq).
    rewrite (pool_query_credentials _ _ _ _ Hu).
    rewrite (lookup_keeps_credentials _ _ _ _ _ Hq).
    split; reflexivity.
Qed.

(** X4. A run issues at most two statements.  The first, if any, is the
    lookup of a valid request; the second, if any, is the update keyed on
    the non-zero identifier in the first row the lookup resolved.  The
    run consumes one entry of the failure schedule per statement. *)
Theorem statements_of_a_run `{Utilities} (e : endpoint) (rnd : Entropy)
  (p : Pool) (b : Body) :
  (List.length (statements_between p (snd (handle e rnd p b))) <= 2)%nat /\
  (forall q r,
      nth_error (statements_between p (snd (handle e rnd p b))) 0
      = Some (q, r) ->
      q = Route.lookup e b /\ Spec.valid e b) /\
  (forall q r,
      nth_error (statements_between p (snd (handle e rnd p b))) 1
      = Some (q, r) ->
      exists i rows,
        q = Route.rotation rnd b i /\ i <> 0%Z /\
        nth_error (statements_between p (snd (handle e rnd p b))) 0
        = Some (Route.lookup e b, Resolved (i :: rows))) /\
  failures (snd (handle e rnd p b))
  = skipn (List.length (statements_between p (snd (handle e rnd p b))))
      (failures p).
Proof.
  pose proof (handle_run e rnd p b) as Hrun.
  destruct (handle e rnd p b) as [out p']. simpl in *.
  inversion Hrun as [msg Hn | p1 Hv Hq | p1 Hv Hq | rows p1 Hv Hq
                    | i rows p1 p2 tok0 Hv Hq Hi Hu Hsign
                    | i rows p1 p2 Hv Hq Hi Hu Hsign
                    | i rows p1 p2 Hv Hq Hi Hu];
    subst; simpl; (split; [lia|]);
    (split; [intros q r [= <- <-]; auto|]);
    (split; [intros q r Hnth; try discriminate Hnth|]);
    try reflexivity;
    try (rewrite (pool_query_failures _ _ _ _ Hq); now destruct (failures p)).
  - injection Hnth as <- <-. exists i, rows. auto.
  - rewrite (pool_query_failures _ _ _ _ Hu), (pool_query_failures _ _ _ _ Hq).
    destruct (failures p) as [|f1 [|f2 fs]]; reflexivity.
  - injection Hnth as <- <-. exists i, rows. auto.
  - rewrite (pool_query_failures _ _ _ _ Hu), (pool_query_failures _ _ _ _ Hq).
    destruct (failures p) as [|f1 [|f2 fs]]; reflexivity.
  - injection Hnth as <- <-. exists i, rows. auto.
  - rewrite (pool_query_failures _ _ _ _ Hu), (pool_query_failures _ _ _ _ Hq).
    destruct (failures p) as [|f1 [|f2 fs]]; reflexivity.
Qed.

(** ** Rotation *)

Lemma set_credential_other (h s : jsstring) (i : Z) (l : list CredentialRow) :
  (forall c, In c l -> cred_account_id c <> i) ->
  List.map (set_credential h s i) l = l.
Proof.
  intros Hnone. rewrite <- (map_id l) at 2. apply map_ext_in.
  intros c Hc. unfold set_credential.
  destruct (Z.eqb_spec (cred_account_id c) i) as [Heq | _]; auto.
  now apply Hnone in Hc.
Qed.

Lemma set_credential_twice (h1 s1 h2 s2 : jsstring) (i : Z)
  (l : list CredentialRow) :
  List.map (set_credential h2 s2 i) (List.map (set_credential h1 s1 i) l)
  = List.map (set_credential h2 s2 i) l.
Proof.
  rewrite map_map. apply map_ext. intros c. unfold set_credential.
  destruct (Z.eqb_spec (cred_account_id c) i) as [Heq | Hne]; simpl.
  - now rewrite Heq, Z.eqb_refl.
  - now destruct (Z.eqb_spec (cred_account_id c) i).
Qed.

(** X5. The update is not checked for the number of rows it changed.  For
    a valid request resolved to a non-zero identifier that has no row in
    the credential table, on a pool that serves both statements and with
    a token that can be signed, the update resolves, the answer is 200
    with the token, and the credential table is exactly what it was. *)
Theorem rotation_without_credential_row `{Utilities} (e : endpoint)
  (rnd : Entropy) (p : Pool) (b : Body) (i : Z) (rows : list Z)
  (tok : jsstring) :
  Spec.valid e b ->
  Spec.served_twice p ->
  rows_of p (Route.lookup e b) = i :: rows ->
  i <> 0%Z ->
  (forall c, In c (Account_Credential p) -> cred_account_id c <> i) ->
  sign i key_secret "15m" = Some tok ->
  fst (handle e rnd p b)
  = Sent {| status := 200; message := "Password updated successfully";
            resetToken := Some tok |} /\
  statements_between p (snd (handle e rnd p b))
  = [(Route.lookup e b, Resolved (i :: rows));
     (Route.rotation rnd b i, Resolved [])] /\
  Account_Credential (snd (handle e rnd p b)) = Account_Credential p.
Proof.
  intros Hv Hs Hrows Hi Hnone Hsign.
  rewrite (rotated_run e rnd p b i rows Hv Hs Hrows Hi).
  unfold Route.after_update. rewrite Hsign. simpl.
  split; [reflexivity|]. split.
  - now apply statements_between_app.
  - now apply set_credential_other.
Qed.

Lemma rotation_without_credential_row_witness :
  fst (handle (H := Scenario.utilities) ForgotPasswordEndpoint
         Scenario.entropy Cases.store_without_credential Scenario.scenario_A)
  = Sent {| status := 200; message := "Password updated successfully";
            resetToken := Some (lit "jwt." ++ [1%N] ++ lit "15m") |} /\
  Account_Credential
    (snd (handle (H := Scenario.utilities) ForgotPasswordEndpoint
            Scenario.entropy Cases.store_without_credential
            Scenario.scenario_A))
  = [Scenario.credential 2; Scenario.credential 0].
Proof.
  destruct (rotation_without_credential_row (H := Scenario.utilities)
              ForgotPasswordEndpoint Scenario.entropy
              Cases.store_without_credential Scenario.scenario_A 1%Z []
              (lit "jwt." ++ [1%N] ++ lit "15m"))
    as (Hout & _ & Hcred).
  - repeat split.
    + apply provided_all_present. reflexivity.
    + apply forgot_policy_value. reflexivity.
    + eexists. split; [reflexivity|]. simpl. tauto.
    + eexists. split; [reflexivity|]. apply phone_spec. reflexivity.
  - split; reflexivity.
  - reflexivity.
  - discriminate.
  - simpl. intros c [<- | [<- | []]]; discriminate.
  - reflexivity.
  - split; assumption.
Defined.

(** X6. The last writer wins.  Two valid requests for the same account,
    one after the other on a pool that serves all four statements: the
    second is answered as it would have been alone, and the credential
    table is the one the second request alone would have left, nothing
    of the first rotation surviving. *)
Theorem last_rotation_wins `{Utilities} (e : endpoint) (rnd1 rnd2 : Entropy)
  (p : Pool) (b1 b2 : Body) (i : Z) (rows : list Z) :
  Spec.valid e b1 ->
  Spec.valid e b2 ->
  Route.lookup e b1 = Route.lookup e b2 ->
  rows_of p (Route.lookup e b1) = i :: rows ->
  i <> 0%Z ->
  Spec.served_twice p ->
  Spec.served_twice (snd (handle e rnd1 p b1)) ->
  fst (handle e rnd2 (snd (handle e rnd1 p b1)) b2)
  = fst (handle e rnd2 p b2) /\
  Account_Credential (snd (handle e rnd2 (snd (handle e rnd1 p b1)) b2))
  = Account_Credential (snd (handle e rnd2 p b2)).
Proof.
  intros Hv1 Hv2 Hl Hrows Hi Hs Hs'.
  rewrite (rotated_run e rnd1 p b1 i rows Hv1 Hs Hrows Hi) in Hs' |- *.
  simpl snd in *.
  assert (Hrows2 : rows_of p (Route.lookup e b2) = i :: rows)
    by now rewrite <- Hl.
  rewrite (rotated_run e rnd2 p b2 i rows Hv2 Hs Hrows2 Hi).
  erewrite (rotated_run e rnd2 _ b2 i rows Hv2 Hs').
  - simpl. split; [reflexivity|]. apply set_credential_twice.
  - rewrite <- Hrows2. now destruct e.
  - exact Hi.
Qed.

Lemma last_rotation_wins_witness :
  Account_Credential
    (snd (handle (H := Scenario.utilities) ChangePasswordEndpoint
            Cases.other_entropy
            (snd (handle (H := Scenario.utilities) ChangePasswordEndpoint
                    Scenario.entropy Scenario.store Scenario.scenario_C))
            (Scenario.change "bob" "x" "Later2!pw" "Later2!pw")))
  = Account_Credential
      (snd (handle (H := Scenario.utilities) ChangePasswordEndpoint
              Cases.other_entropy Scenario.store
              (Scenario.change "bob" "x" "Later2!pw" "Later2!pw"))).
Proof.
  apply (last_rotation_wins (H := Scenario.utilities) ChangePasswordEndpoint
           Scenario.entropy Cases.other_entropy Scenario.store
           Scenario.scenario_C
           (Scenario.change "bob" "x" "Later2!pw" "Later2!pw") 2%Z []).
  - repeat split.
    + apply provided_all_present. reflexivity.
    + apply change_policy_spec. reflexivity.
  - repeat split.
    + apply provided_all_present. reflexivity.
    + apply change_policy_spec. reflexivity.
  - reflexivity.
  - reflexivity.
  - discriminate.
  - split; reflexivity.
  - split; reflexivity.
Defined.

(** X7. What a successful rotation stores can be recomputed: after a run
    answered 200, every credential row of the resolved account holds the
    hash of the request's new password under the salt stored beside it. *)
Theorem stored_hash_matches_stored_salt `{Utilities} (e : endpoint)
  (rnd : Entropy) (p : Pool) (b : Body) (resp : Response) :
  fst (handle e rnd p b) = Sent resp ->
  status resp = 200%Z ->
  exists i rows,
    rows_of p (Route.lookup e b) = i :: rows /\
    forall c,
      In c (Account_Credential (snd (handle e rnd p b))) ->
      cred_account_id c = i ->
      salted_hash c = generateHash (newPassword b) (salt c).
Proof.
  pose proof (handle_run e rnd p b) as Hrun.
  destruct (handle e rnd p b) as [out p']. simpl in *.
  intros -> Hst.
  inversion Hrun as [msg Hn | p1 Hv Hq | p1 Hv Hq | rows p1 Hv Hq
                    | i rows p1 p2 tok0 Hv Hq Hi Hu Hsign
                    | i rows p1 p2 Hv Hq Hi Hu Hsign
                    | i rows p1 p2 Hv Hq Hi Hu];
    subst; simpl in Hst; try discriminate Hst;
    try (destruct e; discriminate Hst).
  exists i, rows. split.
  - pose proof (pool_query_result _ _ _ _ Hq) as Hr.
    destruct (hd false (failures p)); [discriminate Hr|]. now injection Hr.
  - intros c Hc Hid.
    rewrite (pool_query_credentials _ _ _ _ Hu) in Hc. simpl in Hc.
    apply in_map_iff in Hc as (c0 & <- & _).
    destruct (set_credential_frame
                (generateHash (newPassword b) (generateSalt 32 rnd))
                (generateSalt 32 rnd) i c0) as [Hkey [(_ & Hh & Hs) | (Hne & _)]].
    + now rewrite Hh, Hs.
    + rewrite Hkey in Hid. contradiction.
Qed.

Lemma stored_hash_matches_stored_salt_witness :
  exists i rows,
    rows_of Scenario.store
      (Route.lookup ForgotPasswordEndpoint Scenario.scenario_A) = i :: rows /\
    forall c,
      In c (Account_Credential
              (snd (handle (H := Scenario.utilities) ForgotPasswordEndpoint
                      Scenario.entropy Scenario.store Scenario.scenario_A))) ->
      cred_account_id c = i ->
      salted_hash c
      = generateHash (Utilities := Scenario.utilities)
          (newPassword Scenario.scenario_A) (salt c).
Proof.
  apply (stored_hash_matches_stored_salt (H := Scenario.utilities)
           ForgotPasswordEndpoint Scenario.entropy Scenario.store
           Scenario.scenario_A
           {| status := 200; message := "Password updated successfully";
              resetToken := Some (lit "jwt." ++ [1%N] ++ lit "15m") |}).
  - vm_compute. reflexivity.
  - reflexivity.
Defined.

(** ** Validation and the store *)

Lemma router_split `{Utilities} (e : endpoint) (rnd : Entropy) :
  router e rnd = List.map validator (validators e) ++ store_handlers e rnd.
Proof. now destruct e. Qed.

Lemma dispatch_validators (fs : list (Request -> step))
  (rest : list middleware) (p : Pool) (r : Request) :
  dispatch (List.map validator fs ++ rest) p r =
  match validate fs r with
  | Next r' => dispatch rest p r'
  | Send resp => (Sent resp, p)
  | Throw => (Threw, p)
  end.
Proof.
  revert r. induction fs as [|f fs IH]; intros r; [reflexivity|].
  change (dispatch (validator f :: (List.map validator fs ++ rest)) p r = 
          match validate (f :: fs) r with
          | Next r' => dispatch rest p r'
          | Send resp => (Sent resp, p)
          | Throw => (Threw, p)
          end).
  rewrite dispatch_validator. simpl. destruct (f r); auto.
Qed.

Lemma store_handlers_issue `{Utilities} (e : endpoint) (rnd : Entropy)
  (p : Pool) (r : Request) :
  snd (dispatch (store_handlers e rnd) p r) <> p.
Proof.
  intros Heq.
  apply (f_equal (fun x => List.length (issued x))) in Heq. revert Heq.
  destruct e; unfold store_handlers, dispatch;
    [unfold ChangePassword.resolveAccount, ChangePassword.rotateCredential
    |unfold ForgotPassword.resolveAccount, ForgotPassword.rotateCredential];
    unfold pool_query; simpl;
    (destruct (hd false (failures p));
     [simpl; rewrite length_app; simpl; lia|]);
    match goal with
    | |- context [List.map account_id ?l] =>
        destruct (List.map account_id l) as [|i rows]
    end;
    try (simpl; rewrite length_app; simpl; lia);
    simpl; (destruct (Z.eqb i 0); [simpl; rewrite length_app; simpl; lia|]);
    simpl; destruct (hd false (tl (failures p))); simpl;
    try destruct (sign i key_secret "15m"); simpl;
    rewrite !length_app; simpl; lia.
Qed.

(** X8. Validation never looks at the store.  A request that is not
    valid for its route gets the same answer over any two pools, so what
    a rejected request is told says nothing about the accounts held. *)
Theorem validation_ignores_the_store `{Utilities} (e : endpoint)
  (rnd : Entropy) (p1 p2 : Pool) (b : Body) :
  ~ Spec.valid e b ->
  fst (handle e rnd p1 b) = fst (handle e rnd p2 b).
Proof.
  intros Hn.
  destruct (validation_cases e rnd p1 b) as [(msg & Hh) | Hv];
    [|contradiction].
  revert Hh. unfold handle. rewrite router_split, !dispatch_validators.
  destruct (validate (validators e) {| body := b; id := None |}) as [r'| |];
    try reflexivity.
  intros Hh. exfalso. apply (store_handlers_issue e rnd p1 r').
  now rewrite Hh.
Qed.

Lemma validation_ignores_the_store_witness :
  fst (handle (H := Scenario.utilities) ForgotPasswordEndpoint
         Scenario.entropy Scenario.store Scenario.scenario_D)
  = fst (handle (H := Scenario.utilities) ForgotPasswordEndpoint
           Scenario.entropy Cases.store_lookup_fails Scenario.scenario_D).
Proof.
  apply (validation_ignores_the_store (H := Scenario.utilities)).
  intros (_ & _ & _ & _ & (ph & Hph & Hgr)).
  injection Hph as <-. apply phone_spec in Hgr. discriminate Hgr.
Defined.

(** * The book router *)

(** ** Text *)

Lemma trimStart_head (s : jsstring) (c : N) (t : jsstring) :
  Text.trimStart s = c :: t -> Text.is_white_space c = false.
Proof.
  induction s as [|x s IH]; simpl; [discriminate|].
  destruct (Text.is_white_space x) eqn:Hx; auto.
  intros [= -> _]. exact Hx.
Qed.

Lemma trimStart_nil (s : jsstring) :
  Text.trimStart s = [] <-> forallb Text.is_white_space s = true.
Proof.
  induction s as [|x s IH]; simpl; [tauto|].
  destruct (Text.is_white_space x); simpl; [exact IH|].
  split; discriminate.
Qed.

Lemma trimStart_white (s : jsstring) :
  forallb Text.is_white_space (Text.trimStart s) = true <->
  forallb Text.is_white_space s = true.
Proof.
  induction s as [|x s IH]; simpl; [tauto|].
  destruct (Text.is_white_space x) eqn:Hx; simpl; [exact IH|].
  rewrite Hx. simpl. tauto.
Qed.

Lemma forallb_rev {A : Type} (f : A -> bool) (l : list A) :
  forallb f (List.rev l) = forallb f l.
Proof.
  induction l as [|x l IH]; simpl; auto.
  rewrite forallb_app, IH. simpl. rewrite andb_true_r. apply andb_comm.
Qed.

(** [s.trim() === ''] says that [s] is white space throughout. *)
Lemma trim_nil (s : jsstring) :
  Text.trim s = [] <-> forallb Text.is_white_space s = true.
Proof.
  unfold Text.trim. rewrite <- trimStart_white, <- forallb_rev, <- trimStart_nil.
  split; intros Hnil.
  - apply (f_equal (@List.rev N)) in Hnil. now rewrite rev_involutive in Hnil.
  - now rewrite Hnil.
Qed.

Lemma occurs_in_refl (x : jsstring) : Text.occurs_in x x.
Proof. exists [], []. now rewrite app_nil_r. Qed.

Lemma occurs_in_app (x s before after : jsstring) :
  Text.occurs_in x s -> Text.occurs_in x (before ++ s ++ after).
Proof.
  intros (b & a & ->). exists (before ++ b), (a ++ after).
  now rewrite <- !app_assoc.
Qed.

Lemma occurs_in_join (sep : jsstring) (l : list jsstring) (x : jsstring) :
  In x l -> Text.occurs_in x (Text.join sep l).
Proof.
  induction l as [|y l IH]; [contradiction|].
  intros [-> | Hin].
  - destruct l as [|z l]; simpl; [apply occurs_in_refl|].
    exists [], (sep ++ Text.join sep (z :: l)). reflexivity.
  - destruct l as [|z l]; [contradiction|].
    change (Text.join sep (y :: z :: l))
      with (y ++ (sep ++ Text.join sep (z :: l))).
    destruct (IH Hin) as (b & a & ->).
    exists (y ++ sep ++ b), a. now rewrite <- !app_assoc.
Qed.

Lemma occurs_in_trans (x y z : jsstring) :
  Text.occurs_in x y -> Text.occurs_in y z -> Text.occurs_in x z.
Proof.
  intros (b & a & ->) (b' & a' & ->). exists (b' ++ b), (a ++ a').
  now rewrite <- !app_assoc.
Qed.

Lemma occurs_in_after (x s before : jsstring) :
  Text.occurs_in x s -> Text.occurs_in x (before ++ s).
Proof.
  intros (b & a & ->). exists (before ++ b), a. now rewrite <- !app_assoc.
Qed.

Lemma nth_error_zip {A B : Type} (l : list A) (l' : list B) (j : nat)
  (a : A) (b : B) :
  nth_error l j = Some a -> nth_error l' j = Some b ->
  nth_error (combine l l') j = Some (a, b).
Proof.
  revert l' j. induction l as [|x l IH]; intros [|y l'] [|j]; simpl;
    try discriminate.
  - now intros [= ->] [= ->].
  - apply IH.
Qed.

Section BookRouter.

Import Book.
Context `{Driver}.

(** ** The lookups *)

(** X10. Each of the lookups by author, ISBN, title and year sends one
    statement with one parameter: the route parameter as it is, or, for
    the title, wrapped in percent signs.  It answers 500 exactly when the
    statement is rejected, 404 exactly when it resolves without rows, and
    otherwise 200 with one formatted entry per row, in order; a 200 never
    carries an empty list. *)
Theorem lookup_answers (by_what : lookup) (x : jsstring) (r : reply)
  (rest : list reply) :
  exists q a,
    exec (get by_what x) (r :: rest) = (Some a, [q]) /\
    parameters q
    = [Text (match by_what with
             | ByTitle => lit "%" ++ x ++ lit "%"
             | _ => x
             end)] /\
    (status a = 500%Z <-> r = Rejected) /\
    (status a = 404%Z <-> r = Resolved []) /\
    (status a = 200%Z <->
     exists row rows,
       r = Resolved (row :: rows) /\
       entries a = Some (List.map format (row :: rows))) /\
    entries a <> Some [].
Proof.
  destruct by_what; unfold get, getByAuthor, getByIsbn, getByTitle, getByYear,
    select; cbn [exec];
    destruct r as [[|row rows]|]; cbn -[Text.lines lit];
    do 2 eexists; (split; [reflexivity|]); cbn -[Text.lines lit];
    (split; [reflexivity|]);
    repeat split; try discriminate; try reflexivity;
    try (intros (row' & rows' & Heq & _); discriminate Heq);
    try (intros _; do 2 eexists; split; reflexivity).
Qed.

(** ** PUT /rate/:id *)

Lemma provided_none (body : Rate.Body) :
  Rate.provided body = [] ->
  Rate.collect body
  = {| Rate.updates := []; Rate.values := []; Rate.index := 1 |}.
Proof.
  destruct body as [[v1|] [v2|] [v3|] [v4|] [v5|]]; try discriminate.
  reflexivity.
Qed.

(** The statement the handler builds, written out over the ratings the
    body provides. *)
Lemma rate_form (id0 : jsstring) (body : Rate.Body) :
  Rate.provided body <> [] ->
  exists k,
    Rate.rate id0 body =
    Await
      {| text :=
           lit "UPDATE books SET "
           ++ Text.join (lit ", ")
                (List.map (fun cn => Rate.increment (fst (fst cn)) (snd cn))
                   (combine (Rate.provided body)
                      (seq 1 (List.length (Rate.provided body))))
                 ++ [lit "rating_count = rating_count + "
                     ++ Text.join (lit " + ")
                          (List.map (fun cv => join_text (snd cv))
                             (Rate.provided body))]
                 ++ [Rate.average_clause])
           ++ lit " WHERE id = $"
           ++ Text.decimal (S (List.length (Rate.provided body)))
           ++ lit " RETURNING *";
         parameters :=
           List.map (fun cv => Json (snd cv)) (Rate.provided body)
           ++ [Text id0] |} k.
Proof.
  destruct body as [[v1|] [v2|] [v3|] [v4|] [v5|]]; intros Hsome;
    try (now contradiction Hsome); eexists; reflexivity.
Qed.

(** X11. When a body provides at least one rating, the handler builds one
    statement in which placeholders and parameters line up: the j-th
    provided rating is added to its own column through placeholder $j and
    is the j-th parameter, the route's id is the last parameter, and the
    WHERE clause uses the placeholder of that last position. *)
Theorem rate_placeholders (id0 : jsstring) (body : Rate.Body) :
  Rate.provided body <> [] ->
  exists q k clauses tail,
    Rate.rate id0 body = Await q k /\
    text q = lit "UPDATE books SET "
             ++ Text.join (lit ", ") (clauses ++ tail)
             ++ lit " WHERE id = $"
             ++ Text.decimal (List.length (parameters q))
             ++ lit " RETURNING *" /\
    List.length clauses = List.length (Rate.provided body) /\
    List.length (parameters q) = S (List.length (Rate.provided body)) /\
    (forall j c v,
        nth_error (Rate.provided body) j = Some (c, v) ->
        nth_error clauses j = Some (Rate.increment c (S j)) /\
        nth_error (parameters q) j = Some (Json v)) /\
    nth_error (parameters q) (List.length (Rate.provided body))
    = Some (Text id0).
Proof.
  intros Hsome. destruct (rate_form id0 body Hsome) as (k & Hk).
  rewrite Hk. do 4 eexists. split; [reflexivity|].
  cbn [text parameters].
  assert (Hlen : List.length
            (List.map (fun cv : string * Value => Json (snd cv))
               (Rate.provided body) ++ [Text id0])
            = S (List.length (Rate.provided body))).
  { rewrite length_app, length_map. simpl. lia. }
  split; [rewrite Hlen; reflexivity|].
  split; [now rewrite length_map, length_combine, length_seq, Nat.min_id|].
  split; [exact Hlen|]. split.
  - intros j c v Hj.
    assert (Hlt : (j < List.length (Rate.provided body))%nat)
      by (apply nth_error_Some; now rewrite Hj).
    split.
    + apply (map_nth_error
               (fun cn : string * Value * nat =>
                  Rate.increment (fst (fst cn)) (snd cn))
               j _ (d := (c, v, S j))).
      apply nth_error_zip; [exact Hj|].
      rewrite nth_error_seq. apply Nat.ltb_lt in Hlt. now rewrite Hlt.
    + rewrite nth_error_app1 by now rewrite length_map.
      exact (map_nth_error (fun cv : string * Value => Json (snd cv))
               j _ Hj).
  - rewrite nth_error_app2 by now rewrite length_map.
    now rewrite length_map, Nat.sub_diag.
Qed.

(** X12. The rating values are not only bound as parameters: the text
    [join] gives each provided value is also spliced, as it is, into the
    text of the statement. *)
Theorem rate_splices_values (id0 : jsstring) (body : Rate.Body)
  (c : string) (v : Value) :
  In (c, v) (Rate.provided body) ->
  exists q k,
    Rate.rate id0 body = Await q k /\
    In (Json v) (parameters q) /\
    Text.occurs_in (join_text v) (text q).
Proof.
  intros Hin.
  assert (Hsome : Rate.provided body <> [])
    by (intros Hnil; rewrite Hnil in Hin; contradiction).
  destruct (rate_form id0 body Hsome) as (k & Hk).
  rewrite Hk. do 2 eexists. split; [reflexivity|]. cbn [text parameters].
  split.
  - apply in_or_app. left.
    exact (in_map (fun cv : string * Value => Json (snd cv)) _ _ Hin).
  - apply (occurs_in_app _ _ (lit "UPDATE books SET ")).
    apply occurs_in_trans with
      (y := lit "rating_count = rating_count + "
            ++ Text.join (lit " + ")
                 (List.map (fun cv : string * Value => join_text (snd cv))
                    (Rate.provided body))).
    + apply occurs_in_after, occurs_in_join.
      exact (in_map (fun cv : string * Value => join_text (snd cv)) _ _ Hin).
    + apply occurs_in_join.
      apply in_or_app. right. apply in_or_app. left. now left.
Qed.

(** X13. Without any rating in the body the handler answers 400 and sends
    nothing to the pool.  With at least one it sends exactly one
    statement, and answers 500 exactly when that statement is rejected,
    404 exactly when it resolves without rows, and otherwise 200 with one
    formatted entry per row. *)
Theorem rate_answers (id0 : jsstring) (body : Rate.Body) :
  (Rate.provided body = [] ->
   forall replies,
     exec (Rate.rate id0 body) replies
     = (Some (refuse 400 "No valid rating fields provided for update"), []))
  /\
  (Rate.provided body <> [] ->
   forall r rest,
   exists q a,
     exec (Rate.rate id0 body) (r :: rest) = (Some a, [q]) /\
     (status a = 500%Z <-> r = Rejected) /\
     (status a = 404%Z <-> r = Resolved []) /\
     (status a = 200%Z <->
      exists row rows,
        r = Resolved (row :: rows) /\
        entries a = Some (List.map format (row :: rows)))).
Proof.
  split.
  - intros Hnil replies. unfold Rate.rate. now rewrite (provided_none body Hnil).
  - intros Hsome r rest. unfold Rate.rate.
    destruct (List.length (Rate.updates (Rate.collect body)) =? 0)%nat eqn:Hl.
    + exfalso. apply Hsome.
      destruct body as [[v1|] [v2|] [v3|] [v4|] [v5|]];
        try discriminate Hl; reflexivity.
    + cbn [exec].
      destruct r as [[|row rows]|]; cbn -[Text.join lit Text.decimal];
        do 2 eexists; (split; [reflexivity|]); cbn;
        repeat split; try discriminate; try reflexivity;
        try (intros (row' & rows' & Heq & _); discriminate Heq);
        try (intros _; do 2 eexists; split; reflexivity).
Qed.

End BookRouter.

Lemma rate_placeholders_witness :
  exists q k,
    Book.Rate.rate (H := Book.strings) (lit "7") Book.two_ratings
    = Book.Await q k /\
    List.length (Book.parameters q) = 3%nat /\
    nth_error (Book.parameters q) 2 = Some (Book.Text (lit "7")).
Proof.
  destruct (rate_placeholders (H := Book.strings) (lit "7") Book.two_ratings)
    as (q & k & clauses & tail & Hq & _ & _ & Hlen & _ & Hid).
  - discriminate.
  - exists q, k. split; [exact Hq|]. split; [exact Hlen | exact Hid].
Defined.

Lemma rate_splices_values_witness :
  exists q k,
    Book.Rate.rate (H := Book.strings) (lit "7") Book.two_ratings
    = Book.Await q k /\
    In (Book.Json (H := Book.strings) (lit "2")) (Book.parameters q) /\
    Text.occurs_in (lit "2") (Book.text q).
Proof.
  apply (rate_splices_values (H := Book.strings) (lit "7") Book.two_ratings
           "rating_3_star"%string (lit "2")).
  simpl. right. left. reflexivity.
Defined.

Lemma rate_answers_witness :
  exists q a,
    Book.exec (Book.Rate.rate (H := Book.strings) (lit "7") Book.two_ratings)
      [Book.Resolved []]
    = (Some a, [q]) /\
    Book.status a = 404%Z.
Proof.
  destruct (proj2 (rate_answers (H := Book.strings) (lit "7") Book.two_ratings))
    with (r := Book.Resolved (H := Book.strings) [])
         (rest := @nil (Book.reply (H := Book.strings)))
    as (q & a & Hex & _ & H404 & _).
  - discriminate.
  - exists q, a. split; [exact Hex|]. now apply H404.
Defined.

Section BookDeletes.

Import Book.
Context `{Driver}.

(** ** DELETE /isbn/:isbn *)

(** X14. On the delete-by-ISBN route the handler's own "ISBN not
    provided" answer can never be sent: whatever [isNumberProvided]
    accepts, the middleware only lets through a parameter of exactly
    thirteen code units.  Every statement the route sends carries that
    parameter, and a parameter of another length is answered 400 without
    any statement. *)
Theorem isbn_not_provided_is_unreachable (isbn : jsstring)
  (replies : list reply) :
  fst (exec (deleteIsbnRoute isbn) replies)
  <> Some (refuse 400 "ISBN not provided") /\
  (forall q,
      In q (snd (exec (deleteIsbnRoute isbn) replies)) ->
      parameters q = [Text isbn] /\
      List.length isbn = 13%nat /\
      isNumberProvided isbn = true) /\
  (List.length isbn <> 13%nat ->
   exec (deleteIsbnRoute isbn) replies
   = (Some (refuse 400 "ISBN must be a 13-digit number"), [])).
Proof.
  unfold deleteIsbnRoute, mwValidBookDeleteISBN, route.
  destruct (isNumberProvided isbn) eqn:Hnum;
    destruct (Nat.eqb_spec (List.length isbn) 13) as [Hlen | Hlen];
    cbn [negb orb exec fst snd];
    try (split; [discriminate|]; split; [intros q []|reflexivity]).
  destruct isbn as [|c t]; [discriminate Hlen|].
  cbn [deleteByIsbn exec].
  destruct replies as [|[[|row rows]|] rest]; cbn -[lit];
    (split; [try discriminate|]);
    (split; [intros q [<- | []]; auto | intros Hne; contradiction]).
Qed.

(** ** DELETE /series/:seriesName *)

(** X15. The series route refuses a name exactly when it is empty or
    white space throughout: then it answers 400 and sends no statement;
    any other name reaches the handler.  The route without a name gives
    the same answer. *)
Theorem series_name_required (seriesName : jsstring) (replies : list reply) :
  exec (deleteSeriesRoute seriesName) replies
  = (if forallb Text.is_white_space seriesName
     then exec deleteSeriesWithoutName replies
     else exec (deleteSeries seriesName) replies) /\
  exec deleteSeriesWithoutName replies
  = (Some (refuse 400 "Series name is required"), []).
Proof.
  split; [|reflexivity].
  unfold deleteSeriesRoute, mwValidBookDeleteSeries, route.
  destruct (forallb Text.is_white_space seriesName) eqn:Hw.
  - apply trim_nil in Hw. rewrite Hw.
    rewrite (proj2 (jsstring_eqb_eq [] []) eq_refl), orb_true_r.
    reflexivity.
  - destruct seriesName as [|c t]; [discriminate Hw|].
    destruct (jsstring_eqb (Text.trim (c :: t)) []) eqn:Ht; [|reflexivity].
    apply jsstring_eqb_eq, trim_nil in Ht. congruence.
Qed.

(** X16. The handler first tries the series delete, with the name as its
    only parameter.  The standalone delete, with the same parameter, is
    sent exactly when the series delete resolved without rows, and
    nothing is sent after it. *)
Theorem standalone_only_after_empty_series (seriesName : jsstring)
  (replies : list reply) :
  exists more,
    snd (exec (deleteSeries seriesName) replies)
    = {| text := seriesQuery; parameters := [Text seriesName] |} :: more /\
    (more = [] \/
     more = [{| text := standaloneQuery;
                parameters := [Text seriesName] |}]) /\
    (more <> [] <-> exists rest, replies = Resolved [] :: rest).
Proof.
  unfold deleteSeries.
  destruct replies as [|[[|row rows]|] rest]; cbn -[lit seriesQuery standaloneQuery].
  - exists []. split; [reflexivity|]. split; [now left|].
    split; [intros Hne; now contradiction Hne | intros (r & Hr); discriminate Hr].
  - destruct rest as [|[[|row' rows']|] rest'];
      cbn -[lit seriesQuery standaloneQuery];
      eexists; (split; [reflexivity|]); (split; [now right|]);
      (split; [intros _; eexists; reflexivity | intros _; discriminate]).
  - exists []. split; [reflexivity|]. split; [now left|].
    split; [intros Hne; now contradiction Hne | intros (r & Hr); discriminate Hr].
  - exists []. split; [reflexivity|]. split; [now left|].
    split; [intros Hne; now contradiction Hne | intros (r & Hr); discriminate Hr].
Qed.

(** X17. What the handler answers depends on the first non-empty reply:
    404 exactly when both deletes resolved without rows, 500 exactly when
    the series delete was rejected or resolved without rows and the
    standalone delete was rejected, 200 exactly when one of the two
    deleted rows. *)
Theorem series_answers (seriesName : jsstring) (replies : list reply)
  (a : Answer) :
  fst (exec (deleteSeries seriesName) replies) = Some a ->
  (status a = 404%Z <->
   exists rest, replies = Resolved [] :: Resolved [] :: rest) /\
  (status a = 500%Z <->
   (exists rest, replies = Rejected :: rest) \/
   (exists rest, replies = Resolved [] :: Rejected :: rest)) /\
  (status a = 200%Z <->
   (exists row rows rest, replies = Resolved (row :: rows) :: rest) \/
   (exists row rows rest,
       replies = Resolved [] :: Resolved (row :: rows) :: rest)).
Proof.
  unfold deleteSeries.
  destruct replies as [|[[|row rows]|] rest];
    cbn -[lit seriesQuery standaloneQuery Text.decimal];
    try discriminate.
  - destruct rest as [|[[|row' rows']|] rest'];
      cbn -[lit seriesQuery standaloneQuery Text.decimal];
      try discriminate; intros [= <-]; cbn;
      repeat split; try discriminate; try reflexivity;
      try (intros (r & Hr); discriminate Hr);
      try (intros [(r & Hr) | (r & Hr)]; discriminate Hr);
      try (intros [(r1 & r2 & r3 & Hr) | (r1 & r2 & r3 & Hr)];
           discriminate Hr);
      try (intros _; eexists; reflexivity);
      try (intros _; right; eexists; reflexivity);
      try (intros _; right; do 3 eexists; reflexivity).
  - intros [= <-]; cbn;
      repeat split; try discriminate; try reflexivity;
      try (intros (r & Hr); discriminate Hr);
      try (intros [(r & Hr) | (r & Hr)]; discriminate Hr);
      try (intros [(r1 & r2 & r3 & Hr) | (r1 & r2 & r3 & Hr)];
           discriminate Hr);
      try (intros _; left; do 3 eexists; reflexivity).
  - intros [= <-]; cbn;
      repeat split; try discriminate; try reflexivity;
      try (intros (r & Hr); discriminate Hr);
      try (intros [(r & Hr) | (r & Hr)]; discriminate Hr);
      try (intros [(r1 & r2 & r3 & Hr) | (r1 & r2 & r3 & Hr)];
           discriminate Hr);
      try (intros _; left; eexists; reflexivity).
Qed.

(** X18. A 200 of the series handler only ever lists the rows of the
    series delete, one entry per row.  When that delete removed nothing
    and the standalone delete removed rows, the answer is still 200, its
    message quotes the name, and its list of entries is empty. *)
Theorem series_entries (seriesName : jsstring) (replies : list reply)
  (a : Answer) :
  fst (exec (deleteSeries seriesName) replies) = Some a ->
  status a = 200%Z ->
  exists seriesRows rest,
    replies = Resolved seriesRows :: rest /\
    entries a = Some (List.map format seriesRows) /\
    (seriesRows = [] ->
     (exists row rows rest', rest = Resolved (row :: rows) :: rest') /\
     message a
     = Some (lit "Successfully deleted the standalone book titled "
             ++ [34%N] ++ seriesName ++ [34%N])) /\
    (seriesRows <> [] ->
     message a
     = Some (lit "Successfully deleted "
             ++ Text.decimal (List.length seriesRows)
             ++ lit " books within the specified series")).
Proof.
  unfold deleteSeries.
  destruct replies as [|[[|row rows]|] rest];
    cbn -[lit seriesQuery standaloneQuery Text.decimal];
    try discriminate.
  - destruct rest as [|[[|row' rows']|] rest'];
      cbn -[lit seriesQuery standaloneQuery Text.decimal];
      try discriminate; intros [= <-] Hst; try discriminate Hst.
    exists [], (Resolved (row' :: rows') :: rest').
    split; [reflexivity|]. split; [reflexivity|]. split.
    + intros _. split; [do 3 eexists; reflexivity | reflexivity].
    + intros Hne. now contradiction Hne.
  - intros [= <-] _. exists (row :: rows), rest.
    split; [reflexivity|]. split; [reflexivity|]. split.
    + discriminate.
    + reflexivity.
  - intros [= <-] Hst. discriminate Hst.
Qed.

End BookDeletes.

Lemma series_answers_witness :
  Book.status (Book.refuse (H := Book.strings) 404
       "No books found with the specified series name or title") = 404%Z <->
  exists rest,
    [Book.Resolved (H := Book.strings) []; Book.Resolved []]
    = Book.Resolved [] :: Book.Resolved [] :: rest.
Proof.
  apply (series_answers (H := Book.strings) (lit "Dune")
           [Book.Resolved []; Book.Resolved []]).
  reflexivity.
Defined.

Lemma series_entries_witness :
  exists seriesRows rest,
    [Book.Resolved (H := Book.strings) [];
     Book.Resolved [Book.row_of_strings (lit "Dune")]]
    = Book.Resolved seriesRows :: rest /\
    seriesRows = [].
Proof.
  destruct (series_entries (H := Book.strings) (lit "Dune")
              [Book.Resolved [];
               Book.Resolved [Book.row_of_strings (lit "Dune")]]
              {| Book.status := 200;
                 Book.message :=
                   Some (lit "Successfully deleted the standalone book titled "
                         ++ [34%N] ++ lit "Dune" ++ [34%N]);
                 Book.entries := Some [] |})
    as (seriesRows & rest & Hreplies & Hentries & _).
  - reflexivity.
  - reflexivity.
  - exists seriesRows, rest. split; [exact Hreplies|].
    destruct seriesRows as [|r l]; [reflexivity | discriminate Hentries].
Defined.
